(** * gen_bed: the genotype bit-packing codec of [gen_bed.py]

    A shallow embedding of the column packers and the two .bed writers,
    followed by the properties of the packed bytes and of the written
    files. *)

From Stdlib Require Import ZArith List Bool Lia PeanoNat.
Import ListNotations.
Local Open Scope Z_scope.

(** ** Data model *)

(** One element of a numpy array, as the packers see it.  [Int z] stands
    for every scalar that compares equal to the Python integer [z] (an
    [np.byte], or a float with an integral value: both hash and compare
    like the integer), [NaN] for the float not-a-number, and [NonInt]
    for any other float (a non-integral value or an infinity). *)
Inductive scalar : Type :=
  | Int (z : Z)
  | NaN
  | NonInt.

(** The exceptions the modelled code can raise.  [OutOfFuel] is not one
    of Python's: it marks a [while] loop cut short by its iteration
    bound, which no call of a packer reaches (see
    [packers_never_out_of_fuel]). *)
Inductive exn : Type :=
  | KeyError
  | IndexError
  | ValueError
  | AssertionError
  | OutOfFuel.

Inductive result (A : Type) : Type :=
  | Ok (a : A)
  | Raise (e : exn).
Arguments Ok {A} a.
Arguments Raise {A} e.

Definition bind {A B : Type} (r : result A) (k : A -> result B) : result B :=
  match r with
  | Ok a => k a
  | Raise e => Raise e
  end.

Notation "x <- r ;; k" := (bind r (fun x => k))
  (at level 61, r at next level, right associativity).

(** A [bytearray]: every element is an integer in [0, 256). *)
Definition bytearray := list Z.

(** The outcome of a call that mutates a [bytearray] in place: the array
    as the caller sees it afterwards, and whether the call returned or
    raised. *)
Inductive outcome : Type :=
  | Returned (barr : bytearray)
  | Raised (e : exn) (barr : bytearray).

(** [barr.append(b)]: a value outside [0, 256) raises [ValueError] and
    leaves the array as it was. *)
Definition append (barr : bytearray) (b : Z) : outcome :=
  if (0 <=? b) && (b <? 256) then Returned (barr ++ [b])
  else Raised ValueError barr.

(** Key equality of a Python dict lookup with a key taken from an array:
    numbers by value; a NaN from an array is a different object from the
    [np.nan] key and is not equal to it. *)
Definition key_eqb (k g : scalar) : bool :=
  match k, g with
  | Int a, Int b => a =? b
  | _, _ => false
  end.

(** [GT_TO_BED_BITS] *)
Definition GT_TO_BED_BITS : list (scalar * Z) :=
  [ (Int 0, 3);
    (Int 1, 2);
    (NaN, 1);
    (Int 2, 0) ].

Fixpoint dict_get (d : list (scalar * Z)) (g : scalar) : result Z :=
  match d with
  | [] => Raise KeyError
  | (k, v) :: d' => if key_eqb k g then Ok v else dict_get d' g
  end.

(** [np.isnan] *)
Definition isnan (g : scalar) : bool :=
  match g with
  | NaN => true
  | _ => false
  end.

(** [col[row_ix]] for a row index that is not negative. *)
Definition getitem (col : list scalar) (row_ix : nat) : result scalar :=
  match nth_error col row_ix with
  | Some g => Ok g
  | None => Raise IndexError
  end.

(** A two-dimensional [np.ndarray]: its [shape] and its rows. *)
Record ndarray : Type := mk_ndarray {
  shape0 : nat;
  shape1 : nat;
  rows : list (list scalar)
}.

Definition wf_ndarray (m : ndarray) : Prop :=
  length (rows m) = shape0 m /\
  Forall (fun r => length r = shape1 m) (rows m).

(** [m[row_ix, col_ix]] for indices that are not negative. *)
Definition getitem2 (m : ndarray) (row_ix col_ix : nat) : result scalar :=
  match nth_error (rows m) row_ix with
  | Some r => getitem r col_ix
  | None => Raise IndexError
  end.

(** [m[:, col_ix]] *)
Definition column (m : ndarray) (col_ix : nat) : list scalar :=
  map (fun r => nth col_ix r NonInt) (rows m).

(** ** The column packers *)

(** The last three statements of the body of [for _offset in range(4)],
    shared by the three packers: shift, then add the code of [gt]. *)
Definition add_code (b : Z) (gt : scalar) : result Z :=
  let b := Z.shiftl b 2 in
  if isnan gt then Ok (b + 1)
  else c <- dict_get GT_TO_BED_BITS gt ;; Ok (b + c).

(** A [for _offset in range(4)] loop over the state [(row_ix, b)]. *)
Fixpoint for_range (k : nat) (body : nat * Z -> result (nat * Z))
    (st : nat * Z) : result (nat * Z) :=
  match k with
  | O => Ok st
  | S k' => st' <- body st ;; for_range k' body st'
  end.

(** *** [_add_col_to_bytearray_with_padding] *)

Definition col_pad_body (col : list scalar) (n : nat) (st : nat * Z)
    : result (nat * Z) :=
  let '(row_ix, b) := st in
  let row_ix := (row_ix - 1)%nat in
  gt <- (if (n <=? row_ix)%nat then Ok (Int 0) else getitem col row_ix) ;;
  b <- add_code b gt ;;
  Ok (row_ix, b).

(** The [while row_ix < n] loop; [fuel] bounds the number of iterations. *)
Fixpoint col_pad_while (fuel : nat) (col : list scalar) (n : nat)
    (row_ix : nat) (barr : bytearray) : outcome :=
  if (row_ix <? n)%nat then
    match fuel with
    | O => Raised OutOfFuel barr
    | S fuel' =>
        let b := 0 in
        let row_ix := (row_ix + 4)%nat in
        match for_range 4 (col_pad_body col n) (row_ix, b) with
        | Raise e => Raised e barr
        | Ok (row_ix, b) =>
            let row_ix := (row_ix + 4)%nat in
            match append barr b with
            | Raised e barr' => Raised e barr'
            | Returned barr' => col_pad_while fuel' col n row_ix barr'
            end
        end
    end
  else Returned barr.

Definition _add_col_to_bytearray_with_padding (col : list scalar)
    (barr : bytearray) : outcome :=
  let row_ix := 0%nat in
  let n := length col in
  col_pad_while n col n row_ix barr.

(** *** [_add_mat_col_to_bytearray_with_padding] *)

Definition mat_pad_body (m : ndarray) (col_ix : nat) (st : nat * Z)
    : result (nat * Z) :=
  let '(row_ix, b) := st in
  let row_ix := (row_ix - 1)%nat in
  gt <- (if (shape0 m <=? row_ix)%nat then Ok (Int 0)
         else getitem2 m row_ix col_ix) ;;
  b <- add_code b gt ;;
  Ok (row_ix, b).

Fixpoint mat_pad_while (fuel : nat) (m : ndarray) (col_ix : nat)
    (row_ix : nat) (barr : bytearray) : outcome :=
  if (row_ix <? shape0 m)%nat then
    match fuel with
    | O => Raised OutOfFuel barr
    | S fuel' =>
        let b := 0 in
        let row_ix := (row_ix + 4)%nat in
        match for_range 4 (mat_pad_body m col_ix) (row_ix, b) with
        | Raise e => Raised e barr
        | Ok (row_ix, b) =>
            let row_ix := (row_ix + 4)%nat in
            match append barr b with
            | Raised e barr' => Raised e barr'
            | Returned barr' => mat_pad_while fuel' m col_ix row_ix barr'
            end
        end
    end
  else Returned barr.

Definition _add_mat_col_to_bytearray_with_padding (m : ndarray)
    (col_ix : nat) (barr : bytearray) : outcome :=
  let row_ix := 0%nat in
  mat_pad_while (shape0 m) m col_ix row_ix barr.

(** *** [_add_mat_col_to_bytearray] *)

Definition mat_body (m : ndarray) (col_ix : nat) (st : nat * Z)
    : result (nat * Z) :=
  let '(row_ix, b) := st in
  let row_ix := (row_ix - 1)%nat in
  gt <- getitem2 m row_ix col_ix ;;
  b <- add_code b gt ;;
  Ok (row_ix, b).

Fixpoint mat_while (fuel : nat) (m : ndarray) (col_ix : nat)
    (row_ix : nat) (barr : bytearray) : outcome :=
  if (row_ix <? shape0 m)%nat then
    match fuel with
    | O => Raised OutOfFuel barr
    | S fuel' =>
        let b := 0 in
        let row_ix := (row_ix + 4)%nat in
        match for_range 4 (mat_body m col_ix) (row_ix, b) with
        | Raise e => Raised e barr
        | Ok (row_ix, b) =>
            let row_ix := (row_ix + 4)%nat in
            match append barr b with
            | Raised e barr' => Raised e barr'
            | Returned barr' => mat_while fuel' m col_ix row_ix barr'
            end
        end
    end
  else Returned barr.

Definition _add_mat_col_to_bytearray (m : ndarray) (col_ix : nat)
    (barr : bytearray) : outcome :=
  if negb (shape0 m mod 4 =? 0)%nat then Raised AssertionError barr
  else
    let row_ix := 0%nat in
    mat_while (shape0 m) m col_ix row_ix barr.

(** ** The writers *)

(** What a writer leaves behind: the bytes of the file it opened with
    mode ["wb"], and the exception that ended the call, if one did. *)
Record written_file : Type := mk_written {
  contents : bytearray;
  raised : option exn
}.

(** [range(p)] for a Python integer [p]: empty when [p <= 0]. *)
Definition range (p : Z) : list nat := seq 0 (Z.to_nat p).

(** [.astype(np.byte)]: wraps to a signed 8-bit integer. *)
Definition astype_byte (z : Z) : scalar := Int ((z + 128) mod 256 - 128).

(** The body of [with open(filepath, "wb") as out] in [write_m_to_bed]. *)
Fixpoint write_m_loop (ixs : list nat) (m : ndarray) (barr out : bytearray)
    : written_file :=
  match ixs with
  | [] => mk_written out None
  | col_ix :: ixs' =>
      match _add_mat_col_to_bytearray_with_padding m col_ix barr with
      | Raised e _ => mk_written out (Some e)
      | Returned barr =>
          let out := out ++ barr in
          let barr := [] in
          write_m_loop ixs' m barr out
      end
  end.

Definition write_m_to_bed (m : ndarray) (magic_numbers : bool)
    : written_file :=
  let barr := [] in
  let barr := if magic_numbers then barr ++ [108; 27; 1] else barr in
  write_m_loop (seq 0 (shape1 m)) m barr [].

(** [_to_bytes] *)
Fixpoint to_bytes_loop (ixs : list nat) (m : ndarray) (barr : bytearray)
    : outcome :=
  match ixs with
  | [] => Returned barr
  | col_ix :: ixs' =>
      match _add_mat_col_to_bytearray_with_padding m col_ix barr with
      | Raised e barr => Raised e barr
      | Returned barr => to_bytes_loop ixs' m barr
      end
  end.

Definition _to_bytes (m : ndarray) : outcome :=
  to_bytes_loop (seq 0 (shape1 m)) m [].

(** [np.column_stack] of one-dimensional arrays of one length: an empty
    sequence raises [ValueError]. *)
Definition column_stack (cols : list (list scalar)) : result ndarray :=
  match cols with
  | [] => Raise ValueError
  | c :: _ =>
      Ok (mk_ndarray (length c) (length cols)
            (map (fun i => map (fun col => nth i col NonInt) cols)
                 (seq 0 (length c))))
  end.

Section RandomSource.

(** The numpy generator, an external collaborator: its state and the
    values it draws are left open.  A negative [size] makes numpy
    raise [ValueError] before anything is drawn; that check is written
    out at each call below. *)
Variable Rng : Type.
Variable Maf : Type.

(** [rng.uniform(0.0, 0.5)] *)
Variable uniform : Rng -> Maf * Rng.
(** [rng.uniform(0.0, 0.5, p)] *)
Variable uniform_many : nat -> Rng -> list Maf * Rng.
(** [rng.binomial(2, maf, n)] *)
Variable binomial2 : Maf -> nat -> Rng -> list Z * Rng.

(** [_rand_gt_col] *)
Definition _rand_gt_col (n : Z) (rng : Rng)
    : result (list scalar * Rng) :=
  let '(maf, rng) := uniform rng in
  if n <? 0 then Raise ValueError
  else
    let '(draws, rng) := binomial2 maf (Z.to_nat n) rng in
    Ok (map astype_byte draws, rng).

(** The body of [with open(filepath, "wb") as out] in [rand_bed_file]. *)
Fixpoint rand_bed_loop (ixs : list nat) (n : Z) (rng : Rng)
    (barr out : bytearray) : written_file :=
  match ixs with
  | [] => mk_written out None
  | _col_ix :: ixs' =>
      match _rand_gt_col n rng with
      | Raise e => mk_written out (Some e)
      | Ok (col, rng) =>
          match _add_col_to_bytearray_with_padding col barr with
          | Raised e _ => mk_written out (Some e)
          | Returned barr =>
              let out := out ++ barr in
              let barr := [] in
              rand_bed_loop ixs' n rng barr out
          end
      end
  end.

(** [rand_bed_file]; [rng] is the generator [np.random.default_rng()]
    hands out. *)
Definition rand_bed_file (n p : Z) (magic_numbers : bool) (rng : Rng)
    : written_file :=
  let barr := [] in
  let barr := if magic_numbers then barr ++ [108; 27; 1] else barr in
  rand_bed_loop (range p) n rng barr [].

(** The list comprehension of [rand_gt_mat]. *)
Fixpoint binomial_columns (maf : list Maf) (n : Z) (rng : Rng)
    : result (list (list scalar) * Rng) :=
  match maf with
  | [] => Ok ([], rng)
  | f :: maf' =>
      if n <? 0 then Raise ValueError
      else
        let '(draws, rng) := binomial2 f (Z.to_nat n) rng in
        r <- binomial_columns maf' n rng ;;
        let '(cols, rng) := r in
        Ok (map astype_byte draws :: cols, rng)
  end.

(** [rand_gt_mat] *)
Definition rand_gt_mat (n p : Z) (rng : Rng) : result ndarray :=
  if p <? 0 then Raise ValueError
  else
    let '(maf, rng) := uniform_many (Z.to_nat p) rng in
    r <- binomial_columns maf n rng ;;
    column_stack (fst r).

(** The columns the streaming source hands to the packer, one per
    iteration of [rand_bed_file]'s loop. *)
Fixpoint streamed_columns (k : nat) (n : Z) (rng : Rng)
    : result (list (list scalar)) :=
  match k with
  | O => Ok []
  | S k' =>
      r <- _rand_gt_col n rng ;;
      let '(col, rng) := r in
      cols <- streamed_columns k' n rng ;;
      Ok (col :: cols)
  end.

End RandomSource.

Arguments _rand_gt_col {Rng Maf} uniform binomial2 n rng.
Arguments rand_bed_loop {Rng Maf} uniform binomial2 ixs n rng barr out.
Arguments rand_bed_file {Rng Maf} uniform binomial2 n p magic_numbers rng.
Arguments binomial_columns {Rng Maf} binomial2 maf n rng.
Arguments rand_gt_mat {Rng Maf} uniform_many binomial2 n p rng.
Arguments streamed_columns {Rng Maf} uniform binomial2 k n rng.

(** ** The codec as the specification words it *)

Inductive genotype : Type :=
  | HomRef
  | Het
  | HomAlt
  | Missing.

(** The numeric representation of a genotype in the source domain. *)
Definition to_scalar (t : genotype) : scalar :=
  match t with
  | HomRef => Int 0
  | Het => Int 1
  | HomAlt => Int 2
  | Missing => NaN
  end.

(** The mapping table of the specification: value to 2-bit code. *)
Definition code (t : genotype) : Z :=
  match t with
  | HomAlt => 0
  | Het => 2
  | Missing => 1
  | HomRef => 3
  end.

(** [byte = c0 | (c1 << 2) | (c2 << 4) | (c3 << 6)] *)
Definition encode_codes (c0 c1 c2 c3 : Z) : Z :=
  Z.lor c0 (Z.lor (Z.shiftl c1 2) (Z.lor (Z.shiftl c2 4) (Z.shiftl c3 6))).

Definition encode_group (t0 t1 t2 t3 : genotype) : Z :=
  encode_codes (code t0) (code t1) (code t2) (code t3).

(** [pack_column]: consecutive groups of four from index 0, the last one
    padded with [HomRef]. *)
Fixpoint pack_column (col : list genotype) : list Z :=
  match col with
  | [] => []
  | [t0] => [encode_group t0 HomRef HomRef HomRef]
  | [t0; t1] => [encode_group t0 t1 HomRef HomRef]
  | [t0; t1; t2] => [encode_group t0 t1 t2 HomRef]
  | t0 :: t1 :: t2 :: t3 :: rest => encode_group t0 t1 t2 t3 :: pack_column rest
  end.

(** The four recognised states, on array elements. *)
Definition valid_scalar (g : scalar) : bool :=
  match g with
  | Int 0 | Int 1 | Int 2 | NaN => true
  | _ => false
  end.

Definition valid_column (col : list scalar) : Prop :=
  Forall (fun g => valid_scalar g = true) col.

Definition valid_ndarray (m : ndarray) : Prop :=
  Forall valid_column (rows m).

(** [ceil(n / 4)] *)
Definition ceil4 (n : nat) : nat := ((n + 3) / 4)%nat.

Definition magic : bytearray := [108; 27; 1].

(** [l] begins with the bytes [pre]. *)
Definition begins_with (pre l : bytearray) : Prop :=
  exists rest, l = pre ++ rest.

(** The columns of a matrix, in the order the writer visits them. *)
Definition columns (m : ndarray) : list (list scalar) :=
  map (column m) (seq 0 (shape1 m)).

(** No element is the missing sentinel. *)
Definition no_missing (col : list scalar) : Prop :=
  Forall (fun g => isnan g = false) col.

(** ** Both writers as one loop over columns *)

(** The loop of either writer once the column of each iteration is
    known: pack it after what [barr] holds, write [barr], start a new
    [barr]. *)
Fixpoint pack_columns_loop (cols : list (list scalar))
    (barr out : bytearray) : written_file :=
  match cols with
  | [] => mk_written out None
  | col :: cols' =>
      match _add_col_to_bytearray_with_padding col barr with
      | Raised e _ => mk_written out (Some e)
      | Returned barr => pack_columns_loop cols' [] (out ++ barr)
      end
  end.

(** ** Sample inputs *)

(** A generator with a counter for a state: the [i]-th draw of a column
    is [(maf + i) mod 3]. *)
Definition sample_uniform (rng : nat) : nat * nat := (rng, S rng).

Definition sample_uniform_many (k : nat) (rng : nat) : list nat * nat :=
  (seq rng k, (rng + k)%nat).

Definition sample_binomial2 (maf k : nat) (rng : nat) : list Z * nat :=
  (map (fun i => Z.of_nat ((maf + i) mod 3)) (seq 0 k), S rng).

(** The 5 x 2 matrix whose columns are the first two that the sample
    generator draws from state 0. *)
Definition sample_matrix : ndarray :=
  mk_ndarray 5 2
    [ [Int 0; Int 2];
      [Int 1; Int 0];
      [Int 2; Int 1];
      [Int 0; Int 2];
      [Int 1; Int 0] ].

(** A 4 x 2 matrix with a missing value. *)
Definition sample_matrix_4x2 : ndarray :=
  mk_ndarray 4 2
    [ [Int 2; Int 0];
      [Int 1; NaN];
      [NaN; Int 1];
      [Int 0; Int 2] ].

(** A 12 x 1 matrix of valid genotype values. *)
Definition sample_matrix_12x1 : ndarray :=
  mk_ndarray 12 1
    [ [Int 2]; [Int 0]; [Int 1]; [NaN];
      [Int 0]; [Int 1]; [NaN]; [Int 2];
      [NaN]; [Int 2]; [Int 2]; [Int 2] ].

(** A matrix of shape (4, 0). *)
Definition sample_matrix_4x0 : ndarray :=
  mk_ndarray 4 0 [ []; []; []; [] ].

(** ** Reading outcomes and bytes *)

(** An outcome seen by a caller whose array held [barr] before the
    bytes of the outcome. *)
Definition extend (barr : bytearray) (o : outcome) : outcome :=
  match o with
  | Returned b => Returned (barr ++ b)
  | Raised e b => Raised e (barr ++ b)
  end.

(** The 2-bit field of slot [j] of a byte. *)
Definition slot (b : Z) (j : nat) : Z :=
  Z.land (Z.shiftr b (2 * Z.of_nat j)) 3.

Definition byte_range (b : Z) : Prop := 0 <= b < 256.

(** What a drawn column is: [n] values among 0, 1 and 2. *)
Definition drawn_column (n : Z) (col : list scalar) : Prop :=
  length col = Z.to_nat n /\ valid_column col /\ no_missing col.

(** A 5 x 3 matrix whose column 1 holds the value 3. *)
Definition sample_matrix_bad : ndarray :=
  mk_ndarray 5 3
    [ [Int 0; Int 2; Int 1];
      [Int 1; Int 0; Int 1];
      [Int 2; Int 1; Int 1];
      [Int 0; Int 2; Int 1];
      [NaN; Int 3; Int 1] ].

(** ** One loop for the three packers *)

(** The packers differ only in how they read row [row_ix]; their loop,
    over an arbitrary read [fetch], is studied once. *)
Section Loop.

Variable fetch : nat -> result scalar.
Variable n : nat.

Definition loop_body (st : nat * Z) : result (nat * Z) :=
  let '(row_ix, b) := st in
  let row_ix := (row_ix - 1)%nat in
  gt <- fetch row_ix ;;
  b <- add_code b gt ;;
  Ok (row_ix, b).

Fixpoint loop_while (fuel : nat) (row_ix : nat) (barr : bytearray)
    : outcome :=
  if (row_ix <? n)%nat then
    match fuel with
    | O => Raised OutOfFuel barr
    | S fuel' =>
        match for_range 4 loop_body ((row_ix + 4)%nat, 0) with
        | Raise e => Raised e barr
        | Ok (row_ix, b) =>
            match append barr b with
            | Raised e barr' => Raised e barr'
            | Returned barr' => loop_while fuel' (row_ix + 4)%nat barr'
            end
        end
    end
  else Returned barr.

(** The four reads and additions of one group, from its last row down
    to its first. *)
Definition group_at (row_ix : nat) : result Z :=
  g3 <- fetch (row_ix + 3)%nat ;;
  b <- add_code 0 g3 ;;
  g2 <- fetch (row_ix + 2)%nat ;;
  b <- add_code b g2 ;;
  g1 <- fetch (row_ix + 1)%nat ;;
  b <- add_code b g1 ;;
  g0 <- fetch row_ix ;;
  b <- add_code b g0 ;;
  Ok b.

End Loop.

(** * Properties *)

(** ** The packers are instances of the loop *)

Lemma for_range_group (fetch : nat -> result scalar) (row_ix : nat) :
  for_range 4 (loop_body fetch) ((row_ix + 4)%nat, 0)
  = (b <- group_at fetch row_ix ;; Ok (row_ix, b)).
Proof.
  unfold group_at. cbn [for_range]. unfold loop_body at 1.
  replace (row_ix + 4 - 1)%nat with (row_ix + 3)%nat by lia.
  destruct (fetch (row_ix + 3)%nat) as [g3|e]; cbn [bind]; [|reflexivity].
  destruct (add_code 0 g3) as [b3|e]; cbn [bind]; [|reflexivity].
  unfold loop_body at 1.
  replace (row_ix + 3 - 1)%nat with (row_ix + 2)%nat by lia.
  destruct (fetch (row_ix + 2)%nat) as [g2|e]; cbn [bind]; [|reflexivity].
  destruct (add_code b3 g2) as [b2|e]; cbn [bind]; [|reflexivity].
  unfold loop_body at 1.
  replace (row_ix + 2 - 1)%nat with (row_ix + 1)%nat by lia.
  destruct (fetch (row_ix + 1)%nat) as [g1|e]; cbn [bind]; [|reflexivity].
  destruct (add_code b2 g1) as [b1|e]; cbn [bind]; [|reflexivity].
  unfold loop_body at 1.
  replace (row_ix + 1 - 1)%nat with row_ix by lia.
  destruct (fetch row_ix) as [g0|e]; cbn [bind]; [|reflexivity].
  destruct (add_code b1 g0) as [b0|e]; cbn [bind]; reflexivity.
Qed.

Lemma col_pad_while_loop (col : list scalar) (n fuel row_ix : nat)
    (barr : bytearray) :
  col_pad_while fuel col n row_ix barr
  = loop_while
      (fun r => if (n <=? r)%nat then Ok (Int 0) else getitem col r)
      n fuel row_ix barr.
Proof.
  revert row_ix barr.
  induction fuel as [|fuel IH]; intros row_ix barr; cbn [col_pad_while loop_while].
  - reflexivity.
  - destruct (row_ix <? n)%nat; [|reflexivity].
    change (col_pad_body col n)
      with (loop_body (fun r => if (n <=? r)%nat then Ok (Int 0) else getitem col r)).
    rewrite for_range_group.
    destruct (group_at _ row_ix) as [b|e]; cbn [bind]; [|reflexivity].
    destruct (append barr b); [apply IH | reflexivity].
Qed.

Lemma mat_pad_while_loop (m : ndarray) (col_ix fuel row_ix : nat)
    (barr : bytearray) :
  mat_pad_while fuel m col_ix row_ix barr
  = loop_while
      (fun r => if (shape0 m <=? r)%nat then Ok (Int 0)
                else getitem2 m r col_ix)
      (shape0 m) fuel row_ix barr.
Proof.
  revert row_ix barr.
  induction fuel as [|fuel IH]; intros row_ix barr; cbn [mat_pad_while loop_while].
  - reflexivity.
  - destruct (row_ix <? shape0 m)%nat; [|reflexivity].
    change (mat_pad_body m col_ix)
      with (loop_body (fun r => if (shape0 m <=? r)%nat then Ok (Int 0)
                                else getitem2 m r col_ix)).
    rewrite for_range_group.
    destruct (group_at _ row_ix) as [b|e]; cbn [bind]; [|reflexivity].
    destruct (append barr b); [apply IH | reflexivity].
Qed.

Lemma mat_while_loop (m : ndarray) (col_ix fuel row_ix : nat)
    (barr : bytearray) :
  mat_while fuel m col_ix row_ix barr
  = loop_while (fun r => getitem2 m r col_ix) (shape0 m) fuel row_ix barr.
Proof.
  revert row_ix barr.
  induction fuel as [|fuel IH]; intros row_ix barr; cbn [mat_while loop_while].
  - reflexivity.
  - destruct (row_ix <? shape0 m)%nat; [|reflexivity].
    change (mat_body m col_ix)
      with (loop_body (fun r => getitem2 m r col_ix)).
    rewrite for_range_group.
    destruct (group_at _ row_ix) as [b|e]; cbn [bind]; [|reflexivity].
    destruct (append barr b); [apply IH | reflexivity].
Qed.

(** ** The codes *)

Lemma add_code_genotype (b : Z) (t : genotype) :
  add_code b (to_scalar t) = Ok (Z.shiftl b 2 + code t).
Proof. destruct t; reflexivity. Qed.

Lemma add_code_invalid (b : Z) (g : scalar) :
  valid_scalar g = false -> add_code b g = Raise KeyError.
Proof.
  destruct g as [z| |]; [|discriminate|reflexivity].
  destruct z as [|[p|[p|p|]|]|p]; try discriminate; reflexivity.
Qed.

Lemma valid_scalar_genotype (g : scalar) :
  valid_scalar g = true -> exists t, g = to_scalar t.
Proof.
  destruct g as [z| |]; [| exists Missing; reflexivity | discriminate].
  destruct z as [|[p|[p|p|]|]|p]; try discriminate; intros _.
  - exists HomRef; reflexivity.
  - exists HomAlt; reflexivity.
  - exists Het; reflexivity.
Qed.

Lemma to_scalar_valid (t : genotype) : valid_scalar (to_scalar t) = true.
Proof. destruct t; reflexivity. Qed.

Lemma valid_column_genotypes (col : list scalar) :
  valid_column col -> exists gs, col = map to_scalar gs.
Proof.
  induction 1 as [|g col Hg _ [gs ->]].
  - exists []; reflexivity.
  - destruct (valid_scalar_genotype g Hg) as [t ->].
    exists (t :: gs); reflexivity.
Qed.

Lemma genotypes_valid_column (gs : list genotype) :
  valid_column (map to_scalar gs).
Proof.
  induction gs as [|t gs IH]; constructor; [apply to_scalar_valid | exact IH].
Qed.

Lemma encode_group_range (t0 t1 t2 t3 : genotype) :
  0 <= encode_group t0 t1 t2 t3 < 256.
Proof. destruct t0, t1, t2, t3; cbv; split; congruence. Qed.

Lemma append_encode_group (barr : bytearray) (t0 t1 t2 t3 : genotype) :
  append barr (encode_group t0 t1 t2 t3)
  = Returned (barr ++ [encode_group t0 t1 t2 t3]).
Proof.
  unfold append.
  destruct (encode_group_range t0 t1 t2 t3) as [Hlo Hhi].
  apply Z.leb_le in Hlo. apply Z.ltb_lt in Hhi.
  rewrite Hlo, Hhi. reflexivity.
Qed.

(** ** One group *)

Lemma group_at_genotypes (fetch : nat -> result scalar) (row_ix : nat)
    (t0 t1 t2 t3 : genotype) :
  fetch row_ix = Ok (to_scalar t0) ->
  fetch (row_ix + 1)%nat = Ok (to_scalar t1) ->
  fetch (row_ix + 2)%nat = Ok (to_scalar t2) ->
  fetch (row_ix + 3)%nat = Ok (to_scalar t3) ->
  group_at fetch row_ix = Ok (encode_group t0 t1 t2 t3).
Proof.
  intros H0 H1 H2 H3. unfold group_at.
  rewrite H3, H2, H1, H0. cbn [bind].
  repeat (rewrite add_code_genotype; cbn [bind]).
  destruct t0, t1, t2, t3; reflexivity.
Qed.

(** A group whose four reads succeed and that holds a value outside the
    four states raises [KeyError]. *)
Lemma group_at_invalid (fetch : nat -> result scalar) (row_ix : nat)
    (g0 g1 g2 g3 : scalar) :
  fetch row_ix = Ok g0 ->
  fetch (row_ix + 1)%nat = Ok g1 ->
  fetch (row_ix + 2)%nat = Ok g2 ->
  fetch (row_ix + 3)%nat = Ok g3 ->
  valid_scalar g0 && valid_scalar g1 && valid_scalar g2 && valid_scalar g3
    = false ->
  group_at fetch row_ix = Raise KeyError.
Proof.
  intros H0 H1 H2 H3 Hbad. unfold group_at.
  rewrite H3, H2, H1, H0. cbn [bind].
  destruct (valid_scalar g3) eqn:V3;
    [|rewrite (add_code_invalid _ _ V3); reflexivity].
  destruct (valid_scalar_genotype _ V3) as [t3 ->].
  rewrite add_code_genotype; cbn [bind].
  destruct (valid_scalar g2) eqn:V2;
    [|rewrite (add_code_invalid _ _ V2); reflexivity].
  destruct (valid_scalar_genotype _ V2) as [t2 ->].
  rewrite add_code_genotype; cbn [bind].
  destruct (valid_scalar g1) eqn:V1;
    [|rewrite (add_code_invalid _ _ V1); reflexivity].
  destruct (valid_scalar_genotype _ V1) as [t1 ->].
  rewrite add_code_genotype; cbn [bind].
  destruct (valid_scalar g0) eqn:V0;
    [discriminate Hbad|rewrite (add_code_invalid _ _ V0); reflexivity].
Qed.

(** ** One iteration *)

Lemma loop_step (fetch : nat -> result scalar) (n fuel row_ix : nat)
    (barr : bytearray) (t0 t1 t2 t3 : genotype) :
  (row_ix < n)%nat ->
  fetch row_ix = Ok (to_scalar t0) ->
  fetch (row_ix + 1)%nat = Ok (to_scalar t1) ->
  fetch (row_ix + 2)%nat = Ok (to_scalar t2) ->
  fetch (row_ix + 3)%nat = Ok (to_scalar t3) ->
  loop_while fetch n (S fuel) row_ix barr
  = loop_while fetch n fuel (row_ix + 4)%nat
      (barr ++ [encode_group t0 t1 t2 t3]).
Proof.
  intros Hlt H0 H1 H2 H3. cbn [loop_while].
  apply Nat.ltb_lt in Hlt. rewrite Hlt.
  rewrite for_range_group,
    (group_at_genotypes fetch row_ix t0 t1 t2 t3 H0 H1 H2 H3).
  cbn [bind]. rewrite append_encode_group. reflexivity.
Qed.

Lemma loop_raise (fetch : nat -> result scalar) (n fuel row_ix : nat)
    (barr : bytearray) (e : exn) :
  (row_ix < n)%nat ->
  group_at fetch row_ix = Raise e ->
  loop_while fetch n (S fuel) row_ix barr = Raised e barr.
Proof.
  intros Hlt Hg. cbn [loop_while].
  apply Nat.ltb_lt in Hlt. rewrite Hlt.
  rewrite for_range_group, Hg. reflexivity.
Qed.

Lemma loop_exit (fetch : nat -> result scalar) (n fuel row_ix : nat)
    (barr : bytearray) :
  (n <= row_ix)%nat -> loop_while fetch n fuel row_ix barr = Returned barr.
Proof.
  intros Hge. apply Nat.ltb_ge in Hge.
  destruct fuel; cbn [loop_while]; rewrite Hge; reflexivity.
Qed.

(** ** [pack_column] *)

Lemma pack_column_unfold (l : list genotype) :
  l <> [] ->
  pack_column l
  = encode_group (nth 0 l HomRef) (nth 1 l HomRef) (nth 2 l HomRef)
      (nth 3 l HomRef)
    :: pack_column (skipn 4 l).
Proof.
  destruct l as [|t0 [|t1 [|t2 [|t3 l]]]]; intros H;
    [congruence | reflexivity ..].
Qed.

Lemma nth_skipn_shift (l : list genotype) (i j : nat) :
  nth j (skipn i l) HomRef = nth (i + j) l HomRef.
Proof.
  revert l. induction i as [|i IH]; intros l; [reflexivity|].
  destruct l as [|t l]; cbn [skipn Nat.add nth].
  - destruct j; reflexivity.
  - apply IH.
Qed.

Lemma skipn_shift (l : list genotype) (i j : nat) :
  skipn j (skipn i l) = skipn (i + j) l.
Proof.
  revert l. induction i as [|i IH]; intros l; [reflexivity|].
  destruct l as [|t l]; cbn [skipn Nat.add].
  - destruct j; reflexivity.
  - apply IH.
Qed.

Lemma pack_column_skipn (gs : list genotype) (row_ix : nat) :
  (row_ix < length gs)%nat ->
  pack_column (skipn row_ix gs)
  = encode_group (nth row_ix gs HomRef) (nth (row_ix + 1) gs HomRef)
      (nth (row_ix + 2) gs HomRef) (nth (row_ix + 3) gs HomRef)
    :: pack_column (skipn (row_ix + 4) gs).
Proof.
  intros Hlt. rewrite pack_column_unfold.
  - rewrite !nth_skipn_shift, skipn_shift, Nat.add_0_r. reflexivity.
  - intros E. apply (f_equal (@length _)) in E.
    rewrite length_skipn in E. cbn in E. lia.
Qed.

(** Lists taken four elements at a time. *)
Lemma list_ind4 (P : list genotype -> Prop) :
  P [] ->
  (forall t0, P [t0]) ->
  (forall t0 t1, P [t0; t1]) ->
  (forall t0 t1 t2, P [t0; t1; t2]) ->
  (forall t0 t1 t2 t3 l, P l -> P (t0 :: t1 :: t2 :: t3 :: l)) ->
  forall l, P l.
Proof.
  intros H0 H1 H2 H3 H4 l.
  assert (forall k l, (length l <= k)%nat -> P l) as Hk.
  { clear l. induction k as [|k IH]; intros l Hl.
    - destruct l; [exact H0 | cbn in Hl; lia].
    - destruct l as [|t0 [|t1 [|t2 [|t3 l]]]]; auto.
      apply H4, IH. cbn in Hl. lia. }
  apply (Hk (length l)). lia.
Qed.

Lemma ceil4_add4 (k : nat) : ceil4 (S (S (S (S k)))) = S (ceil4 k).
Proof.
  unfold ceil4.
  replace (S (S (S (S k))) + 3)%nat with (k + 3 + 1 * 4)%nat by lia.
  rewrite Nat.div_add by lia. lia.
Qed.

Lemma length_pack_column (l : list genotype) :
  length (pack_column l) = ceil4 (length l).
Proof.
  induction l as [| | | | t0 t1 t2 t3 l IH] using list_ind4;
    try reflexivity.
  cbn [pack_column length]. rewrite ceil4_add4, IH. reflexivity.
Qed.

Lemma pack_column_app (k : nat) (pre l : list genotype) :
  length pre = (4 * k)%nat ->
  pack_column (pre ++ l) = pack_column pre ++ pack_column l.
Proof.
  revert pre. induction k as [|k IH]; intros pre Hlen.
  - destruct pre; [reflexivity | cbn in Hlen; lia].
  - destruct pre as [|t0 [|t1 [|t2 [|t3 pre]]]]; cbn in Hlen; try lia.
    cbn [app pack_column]. rewrite IH by lia. reflexivity.
Qed.

(** ** The whole loop *)

(** On a column of genotypes read with [HomRef] past its end, the loop
    started at [row_ix] with enough fuel returns, having appended the
    packed bytes of the rows from [row_ix] on. *)
Lemma loop_pack_column (fetch : nat -> result scalar) (gs : list genotype) :
  (forall r, fetch r = Ok (to_scalar (nth r gs HomRef))) ->
  forall fuel row_ix barr,
    (length gs <= fuel + row_ix)%nat ->
    loop_while fetch (length gs) fuel row_ix barr
    = Returned (barr ++ pack_column (skipn row_ix gs)).
Proof.
  intros Hf. induction fuel as [|fuel IH]; intros row_ix barr Hfuel.
  - rewrite loop_exit by lia.
    rewrite skipn_all2 by lia. cbn [pack_column]. now rewrite app_nil_r.
  - destruct (Nat.lt_ge_cases row_ix (length gs)) as [Hlt|Hge].
    + rewrite (loop_step fetch _ fuel row_ix barr _ _ _ _ Hlt
                 (Hf _) (Hf _) (Hf _) (Hf _)).
      rewrite IH by lia.
      rewrite (pack_column_skipn gs row_ix Hlt), <- app_assoc. reflexivity.
    + rewrite loop_exit by lia.
      rewrite skipn_all2 by lia. cbn [pack_column]. now rewrite app_nil_r.
Qed.

(** On a column whose first [4 * k] rows are the genotypes [pre], the
    first [k] iterations append the packed bytes of [pre]. *)
Lemma loop_prefix (fetch : nat -> result scalar) (n k : nat)
    (pre : list genotype) :
  (4 * k <= n)%nat ->
  (forall r, (r < 4 * k)%nat -> fetch r = Ok (to_scalar (nth r pre HomRef))) ->
  length pre = (4 * k)%nat ->
  forall d j fuel barr,
    (j + d = k)%nat ->
    loop_while fetch n (d + fuel) (4 * j) barr
    = loop_while fetch n fuel (4 * k)
        (barr ++ pack_column (skipn (4 * j) pre)).
Proof.
  intros Hn Hf Hlen. induction d as [|d IH]; intros j fuel barr Hj.
  - replace j with k by lia. cbn [Nat.add].
    rewrite skipn_all2 by lia. cbn [pack_column]. now rewrite app_nil_r.
  - cbn [Nat.add].
    rewrite (loop_step fetch n (d + fuel) (4 * j) barr
               (nth (4 * j) pre HomRef) (nth (4 * j + 1) pre HomRef)
               (nth (4 * j + 2) pre HomRef) (nth (4 * j + 3) pre HomRef));
      try (apply Hf; lia); try lia.
    replace (4 * j + 4)%nat with (4 * S j)%nat by lia.
    rewrite IH by lia.
    rewrite (pack_column_skipn pre (4 * j)) by lia.
    replace (4 * j + 4)%nat with (4 * S j)%nat by lia.
    rewrite <- app_assoc. reflexivity.
Qed.

Lemma loop_ext (f1 f2 : nat -> result scalar) (n : nat) :
  (forall r, f1 r = f2 r) ->
  forall fuel row_ix barr,
    loop_while f1 n fuel row_ix barr = loop_while f2 n fuel row_ix barr.
Proof.
  intros Hf. induction fuel as [|fuel IH]; intros row_ix barr;
    cbn [loop_while]; [reflexivity|].
  destruct (row_ix <? n)%nat; [|reflexivity].
  rewrite !for_range_group.
  assert (group_at f1 row_ix = group_at f2 row_ix) as ->
    by (unfold group_at; now rewrite !Hf).
  destruct (group_at f2 row_ix) as [b|e]; cbn [bind]; [|reflexivity].
  destruct (append barr b); [apply IH | reflexivity].
Qed.

(** When the row count is a multiple of four, the loop reads no row past
    the end: two reads that agree below it give the same loop. *)
Lemma loop_ext_aligned (f1 f2 : nat -> result scalar) (k : nat) :
  (forall r, (r < 4 * k)%nat -> f1 r = f2 r) ->
  forall fuel j barr,
    loop_while f1 (4 * k) fuel (4 * j) barr
    = loop_while f2 (4 * k) fuel (4 * j) barr.
Proof.
  intros Hf. induction fuel as [|fuel IH]; intros j barr;
    cbn [loop_while]; [reflexivity|].
  destruct (4 * j <? 4 * k)%nat eqn:Hlt; [|reflexivity].
  apply Nat.ltb_lt in Hlt.
  rewrite !for_range_group.
  assert (group_at f1 (4 * j) = group_at f2 (4 * j)) as ->
    by (unfold group_at; rewrite !Hf by lia; reflexivity).
  destruct (group_at f2 (4 * j)) as [b|e]; cbn [bind]; [|reflexivity].
  replace (4 * j + 4)%nat with (4 * S j)%nat by lia.
  destruct (append barr b); [apply IH | reflexivity].
Qed.

(** ** Termination *)

Lemma add_code_raises (b : Z) (g : scalar) (e : exn) :
  add_code b g = Raise e -> e = KeyError.
Proof.
  unfold add_code. destruct (isnan g); [discriminate|].
  destruct (dict_get GT_TO_BED_BITS g) as [c|e'] eqn:Hget;
    cbn [bind]; [discriminate|].
  intros [= <-]. revert Hget. cbn [GT_TO_BED_BITS dict_get].
  repeat match goal with
         | |- context [if ?c then _ else _] => destruct c
         end; congruence.
Qed.

Lemma group_at_raises (fetch : nat -> result scalar) (row_ix : nat)
    (e : exn) :
  (forall r, fetch r <> Raise OutOfFuel) ->
  group_at fetch row_ix = Raise e -> e <> OutOfFuel.
Proof.
  intros Hf. unfold group_at.
  repeat match goal with
         | |- context [fetch ?r] =>
             let H := fresh "Hfetch" in
             pose proof (Hf r) as H;
             destruct (fetch r); cbn [bind];
             [clear H | intros [= <-]; congruence]
         | |- context [add_code ?b ?g] =>
             let H := fresh "Hadd" in
             destruct (add_code b g) eqn:H; cbn [bind];
             [clear H
             | apply add_code_raises in H; intros [= <-]; congruence]
         end.
  discriminate.
Qed.

(** With a bound of at least [n - row_ix] iterations the loop is never
    cut short. *)
Lemma loop_while_fuel (fetch : nat -> result scalar) (n : nat) :
  (forall r, fetch r <> Raise OutOfFuel) ->
  forall fuel row_ix barr barr',
    (n <= fuel + row_ix)%nat ->
    loop_while fetch n fuel row_ix barr <> Raised OutOfFuel barr'.
Proof.
  intros Hf. induction fuel as [|fuel IH]; intros row_ix barr barr' Hfuel.
  - rewrite loop_exit by lia. discriminate.
  - cbn [loop_while]. destruct (row_ix <? n)%nat; [|discriminate].
    rewrite for_range_group.
    destruct (group_at fetch row_ix) as [b|e] eqn:Hg; cbn [bind].
    + unfold append. destruct ((0 <=? b) && (b <? 256));
        [apply IH; lia | discriminate].
    + apply (group_at_raises fetch row_ix e Hf) in Hg. congruence.
Qed.

Lemma packers_never_out_of_fuel (col : list scalar) (m : ndarray)
    (col_ix : nat) (barr barr' : bytearray) :
  _add_col_to_bytearray_with_padding col barr <> Raised OutOfFuel barr'
  /\ _add_mat_col_to_bytearray_with_padding m col_ix barr
     <> Raised OutOfFuel barr'
  /\ _add_mat_col_to_bytearray m col_ix barr <> Raised OutOfFuel barr'.
Proof.
  assert (forall l r, getitem l r <> Raise OutOfFuel) as Hget.
  { intros l r. unfold getitem. destruct (nth_error l r); discriminate. }
  assert (forall r, getitem2 m r col_ix <> Raise OutOfFuel) as Hget2.
  { intros r. unfold getitem2. destruct (nth_error (rows m) r);
      [apply Hget | discriminate]. }
  split; [|split].
  - unfold _add_col_to_bytearray_with_padding. rewrite col_pad_while_loop.
    apply loop_while_fuel; [|lia].
    intros r. destruct (length col <=? r)%nat; [discriminate | apply Hget].
  - unfold _add_mat_col_to_bytearray_with_padding.
    rewrite mat_pad_while_loop. apply loop_while_fuel; [|lia].
    intros r. destruct (shape0 m <=? r)%nat; [discriminate | apply Hget2].
  - unfold _add_mat_col_to_bytearray.
    destruct (negb (shape0 m mod 4 =? 0)%nat); [discriminate|].
    rewrite mat_while_loop. apply loop_while_fuel; [exact Hget2 | lia].
Qed.

(** ** Reading a column *)

Lemma fetch_col_genotypes (gs : list genotype) (r : nat) :
  (if (length (map to_scalar gs) <=? r)%nat then Ok (Int 0)
   else getitem (map to_scalar gs) r)
  = Ok (to_scalar (nth r gs HomRef)).
Proof.
  rewrite length_map.
  destruct (length gs <=? r)%nat eqn:Hle.
  - apply Nat.leb_le in Hle. rewrite nth_overflow by lia. reflexivity.
  - apply Nat.leb_gt in Hle. unfold getitem.
    rewrite nth_error_map, (nth_error_nth' gs HomRef Hle). reflexivity.
Qed.

Lemma add_col_pack_column (gs : list genotype) (barr : bytearray) :
  _add_col_to_bytearray_with_padding (map to_scalar gs) barr
  = Returned (barr ++ pack_column gs).
Proof.
  unfold _add_col_to_bytearray_with_padding.
  rewrite col_pad_while_loop.
  rewrite (loop_ext _ (fun r => Ok (to_scalar (nth r gs HomRef))))
    by (intros r; apply fetch_col_genotypes).
  rewrite length_map.
  rewrite (loop_pack_column _ gs) by (intros; reflexivity || lia).
  reflexivity.
Qed.

Lemma length_column (m : ndarray) (col_ix : nat) :
  wf_ndarray m -> length (column m col_ix) = shape0 m.
Proof. intros [Hr _]. unfold column. now rewrite length_map. Qed.

Lemma getitem2_column (m : ndarray) (col_ix r : nat) :
  wf_ndarray m -> (col_ix < shape1 m)%nat ->
  (if (shape0 m <=? r)%nat then Ok (Int 0) else getitem2 m r col_ix)
  = (if (length (column m col_ix) <=? r)%nat then Ok (Int 0)
     else getitem (column m col_ix) r).
Proof.
  intros Hwf Hc. rewrite (length_column m col_ix Hwf).
  destruct (shape0 m <=? r)%nat eqn:Hle; [reflexivity|].
  apply Nat.leb_gt in Hle. destruct Hwf as [Hr Hall].
  unfold getitem2, getitem, column. rewrite nth_error_map.
  destruct (nth_error (rows m) r) as [row|] eqn:Hrow.
  - cbn [option_map].
    assert (length row = shape1 m) as Hlen.
    { rewrite Forall_forall in Hall. eapply Hall, nth_error_In, Hrow. }
    rewrite (nth_error_nth' row NonInt) by lia. reflexivity.
  - apply nth_error_None in Hrow. lia.
Qed.

Lemma add_mat_col_column (m : ndarray) (col_ix : nat) (barr : bytearray) :
  wf_ndarray m -> (col_ix < shape1 m)%nat ->
  _add_mat_col_to_bytearray_with_padding m col_ix barr
  = _add_col_to_bytearray_with_padding (column m col_ix) barr.
Proof.
  intros Hwf Hc.
  unfold _add_mat_col_to_bytearray_with_padding,
    _add_col_to_bytearray_with_padding.
  rewrite col_pad_while_loop, mat_pad_while_loop.
  rewrite (length_column m col_ix Hwf).
  apply loop_ext. intros r.
  rewrite (getitem2_column m col_ix r Hwf Hc), (length_column m col_ix Hwf).
  reflexivity.
Qed.

Lemma valid_column_of_matrix (m : ndarray) (col_ix : nat) :
  wf_ndarray m -> valid_ndarray m -> (col_ix < shape1 m)%nat ->
  valid_column (column m col_ix).
Proof.
  intros [_ Hall] Hv Hc. unfold column, valid_column.
  apply Forall_map, Forall_forall. intros row Hin.
  unfold valid_ndarray in Hv. rewrite Forall_forall in Hall, Hv.
  specialize (Hall row Hin). specialize (Hv row Hin).
  unfold valid_column in Hv. rewrite Forall_forall in Hv.
  apply Hv, nth_In. lia.
Qed.

Lemma fetch_col_app (pre : list genotype) (tail : list scalar) (k i : nat) :
  length pre = (4 * k)%nat ->
  (if (length (map to_scalar pre ++ tail) <=? 4 * k + i)%nat then Ok (Int 0)
   else getitem (map to_scalar pre ++ tail) (4 * k + i))
  = (if (length tail <=? i)%nat then Ok (Int 0) else getitem tail i).
Proof.
  intros Hlen. rewrite length_app, length_map, Hlen.
  destruct (length tail <=? i)%nat eqn:Hle.
  - apply Nat.leb_le in Hle.
    replace (4 * k + length tail <=? 4 * k + i)%nat with true
      by (symmetry; apply Nat.leb_le; lia).
    reflexivity.
  - apply Nat.leb_gt in Hle.
    replace (4 * k + length tail <=? 4 * k + i)%nat with false
      by (symmetry; apply Nat.leb_gt; lia).
    unfold getitem. rewrite nth_error_app2 by (rewrite length_map; lia).
    rewrite length_map, Hlen.
    replace (4 * k + i - 4 * k)%nat with i by lia. reflexivity.
Qed.

Lemma fetch_col_prefix (pre : list genotype) (tail : list scalar) (r : nat) :
  (r < length pre)%nat ->
  (if (length (map to_scalar pre ++ tail) <=? r)%nat then Ok (Int 0)
   else getitem (map to_scalar pre ++ tail) r)
  = Ok (to_scalar (nth r pre HomRef)).
Proof.
  intros Hr. rewrite length_app, length_map.
  replace (length pre + length tail <=? r)%nat with false
    by (symmetry; apply Nat.leb_gt; lia).
  unfold getitem. rewrite nth_error_app1 by (rewrite length_map; lia).
  rewrite nth_error_map, (nth_error_nth' pre HomRef Hr). reflexivity.
Qed.

(** A column that holds a value outside the four states in the group
    after [4 * k] good rows: the packer raises, having appended the bytes
    of the groups before and nothing more. *)
Lemma add_col_invalid_group (pre : list genotype) (tail : list scalar)
    (k : nat) (barr : bytearray) (g0 g1 g2 g3 : scalar) :
  length pre = (4 * k)%nat ->
  tail <> [] ->
  (if (length tail <=? 0)%nat then Ok (Int 0) else getitem tail 0) = Ok g0 ->
  (if (length tail <=? 1)%nat then Ok (Int 0) else getitem tail 1) = Ok g1 ->
  (if (length tail <=? 2)%nat then Ok (Int 0) else getitem tail 2) = Ok g2 ->
  (if (length tail <=? 3)%nat then Ok (Int 0) else getitem tail 3) = Ok g3 ->
  valid_scalar g0 && valid_scalar g1 && valid_scalar g2 && valid_scalar g3
    = false ->
  _add_col_to_bytearray_with_padding (map to_scalar pre ++ tail) barr
  = Raised KeyError (barr ++ pack_column pre).
Proof.
  intros Hlen Htail H0 H1 H2 H3 Hbad.
  unfold _add_col_to_bytearray_with_padding.
  rewrite col_pad_while_loop.
  set (col := map to_scalar pre ++ tail).
  set (fetch := fun r => if (length col <=? r)%nat then Ok (Int 0)
                         else getitem col r).
  assert (length col = (4 * k + length tail)%nat) as Hn
    by (unfold col; rewrite length_app, length_map; lia).
  assert (0 < length tail)%nat as Hpos
    by (destruct tail; [congruence | cbn; lia]).
  replace (length col) with (k + S (length col - S k))%nat at 2 by lia.
  change 0%nat with (4 * 0)%nat.
  rewrite (loop_prefix fetch (length col) k pre); try lia.
  - rewrite Nat.mul_0_r. cbn [skipn].
    apply loop_raise; [lia|].
    apply (group_at_invalid fetch (4 * k) g0 g1 g2 g3); trivial;
      unfold fetch, col.
    + rewrite <- H0, <- (fetch_col_app pre tail k 0 Hlen).
      now rewrite Nat.add_0_r.
    + rewrite <- H1. apply (fetch_col_app pre tail k 1 Hlen).
    + rewrite <- H2. apply (fetch_col_app pre tail k 2 Hlen).
    + rewrite <- H3. apply (fetch_col_app pre tail k 3 Hlen).
  - intros r Hr. unfold fetch, col. apply fetch_col_prefix. lia.
Qed.

(** ** The packed bytes of a column *)

(** C1. Bit-order law: a group of four valid genotypes with codes
    [c0 .. c3] (HomAlt 00, Het 10, Missing 01, HomRef 11), standing after
    [4 * k] rows of a column, is packed into the byte
    [c0 | (c1 << 2) | (c2 << 4) | (c3 << 6)], the [k]-th byte that the
    column packer appends; the column [[HomAlt, Het, Missing, HomRef]]
    packs into the single byte [0xD8]. *)
Theorem bit_order_law (pre post : list genotype) (t0 t1 t2 t3 : genotype)
    (k : nat) (barr : bytearray) :
  length pre = (4 * k)%nat ->
  _add_col_to_bytearray_with_padding
    (map to_scalar (pre ++ [t0; t1; t2; t3] ++ post)) barr
  = Returned
      (barr ++ pack_column pre
         ++ [Z.lor (code t0)
               (Z.lor (Z.shiftl (code t1) 2)
                  (Z.lor (Z.shiftl (code t2) 4) (Z.shiftl (code t3) 6)))]
         ++ pack_column post)
  /\ length (pack_column pre) = k
  /\ (code HomAlt = 0 /\ code Het = 2 /\ code Missing = 1 /\ code HomRef = 3)
  /\ _add_col_to_bytearray_with_padding [Int 2; Int 1; NaN; Int 0] []
     = Returned [0xD8].
Proof.
  intros Hlen. repeat split.
  - rewrite add_col_pack_column, (pack_column_app k pre _ Hlen).
    reflexivity.
  - rewrite length_pack_column, Hlen. unfold ceil4.
    replace (4 * k + 3)%nat with (3 + k * 4)%nat by lia.
    now rewrite Nat.div_add by lia.
Qed.

Lemma bit_order_law_witness :
  length [HomRef; Het; HomAlt; Missing] = (4 * 1)%nat
  /\ _add_col_to_bytearray_with_padding
       (map to_scalar
          ([HomRef; Het; HomAlt; Missing] ++ [Het; Het; Missing; HomAlt]
             ++ [HomRef; Missing])) [7]
     = Returned [7; 0x4B; 0x1A; 0xF7].
Proof.
  split; [reflexivity|].
  exact (proj1 (bit_order_law [HomRef; Het; HomAlt; Missing]
                  [HomRef; Missing] Het Het Missing HomAlt 1 [7] eq_refl)).
Defined.

Lemma split_last_group (gs : list genotype) :
  (length gs mod 4 <> 0)%nat ->
  exists pre tail k,
    gs = pre ++ tail /\ length pre = (4 * k)%nat
    /\ length tail = (length gs mod 4)%nat.
Proof.
  intros Hmod.
  exists (firstn (4 * (length gs / 4)) gs), (skipn (4 * (length gs / 4)) gs),
    (length gs / 4)%nat.
  pose proof (Nat.div_mod_eq (length gs) 4) as Hdm.
  repeat split.
  - symmetry. apply firstn_skipn.
  - rewrite length_firstn. lia.
  - rewrite length_skipn. lia.
Qed.

(** C3. Padding law: when the column length is not a multiple of 4, the
    slots of the final byte beyond the last row hold the code of HomRef
    (11), not that of Missing (01); the column [[HomRef]] packs into the
    one byte [0xFF] and the column [[Missing]] into the one byte
    [0xFD]. *)
Theorem padding_law (gs : list genotype) (barr : bytearray) :
  (length gs mod 4 <> 0)%nat ->
  (exists out last,
      _add_col_to_bytearray_with_padding (map to_scalar gs) barr
      = Returned (barr ++ out ++ [last])
      /\ forall j, (length gs mod 4 <= j < 4)%nat ->
           Z.land (Z.shiftr last (2 * Z.of_nat j)) 3 = code HomRef
           /\ Z.land (Z.shiftr last (2 * Z.of_nat j)) 3 <> code Missing)
  /\ _add_col_to_bytearray_with_padding [Int 0] [] = Returned [0xFF]
  /\ _add_col_to_bytearray_with_padding [NaN] [] = Returned [0xFD].
Proof.
  intros Hmod. split; [|split; reflexivity].
  destruct (split_last_group gs Hmod) as (pre & tail & k & -> & Hpre & Htail).
  rewrite <- Htail.
  assert (length tail < 4)%nat as Hlt
    by (rewrite Htail; apply Nat.mod_upper_bound; lia).
  assert (length tail <> 0)%nat as Hne by lia.
  rewrite add_col_pack_column, (pack_column_app k pre tail Hpre).
  destruct tail as [|t0 [|t1 [|t2 [|t3 tail]]]]; cbn [length] in *;
    try lia; cbn [pack_column];
    eexists; eexists; (split; [reflexivity|]);
    intros j Hj;
    assert (j = 1 \/ j = 2 \/ j = 3)%nat as Hcases by lia.
  - destruct Hcases as [-> | [-> | ->]]; destruct t0; cbv; split; congruence.
  - destruct Hcases as [-> | [-> | ->]]; try lia;
      destruct t0, t1; cbv; split; congruence.
  - destruct Hcases as [-> | [-> | ->]]; try lia;
      destruct t0, t1, t2; cbv; split; congruence.
Qed.

Lemma padding_law_witness :
  (length [Het; Missing; HomAlt; HomRef; Missing; Missing] mod 4 <> 0)%nat
  /\ _add_col_to_bytearray_with_padding [Int 0] [] = Returned [0xFF].
Proof.
  assert (length [Het; Missing; HomAlt; HomRef; Missing; Missing] mod 4
          <> 0)%nat as H by (cbn; lia).
  split; [exact H|].
  exact (proj1 (proj2 (padding_law
    [Het; Missing; HomAlt; HomRef; Missing; Missing] [] H))).
Defined.

(** C4. Length law: packing a column of [n] valid genotype values
    appends exactly [ceil(n/4)] bytes; an empty column appends none. *)
Theorem length_law (col : list scalar) (barr : bytearray) :
  valid_column col ->
  (exists out,
      _add_col_to_bytearray_with_padding col barr = Returned (barr ++ out)
      /\ length out = ceil4 (length col))
  /\ _add_col_to_bytearray_with_padding [] barr = Returned barr.
Proof.
  intros Hv. split; [|reflexivity].
  destruct (valid_column_genotypes col Hv) as [gs ->].
  exists (pack_column gs). split.
  - apply add_col_pack_column.
  - now rewrite length_pack_column, length_map.
Qed.

Lemma length_law_witness :
  valid_column [Int 0; Int 1; NaN; Int 2; Int 1]
  /\ exists out,
       _add_col_to_bytearray_with_padding [Int 0; Int 1; NaN; Int 2; Int 1] [9]
       = Returned ([9] ++ out)
       /\ length out = ceil4 5.
Proof.
  assert (valid_column [Int 0; Int 1; NaN; Int 2; Int 1]) as H
    by (repeat constructor).
  split; [exact H|].
  exact (proj1 (length_law [Int 0; Int 1; NaN; Int 2; Int 1] [9] H)).
Defined.

(** C7. Invalid-genotype rejection: when the group that follows [4 * k]
    valid rows holds a value outside the four recognised states (such as
    3 or -1), the packer raises (the [KeyError] of the code table, the
    error the specification calls InvalidGenotype) and the bytes it has
    appended are those of the [k] groups before: none for that group. *)
Theorem invalid_genotype_rejected (pre : list genotype)
    (grp post : list scalar) (k : nat) (barr : bytearray) :
  length pre = (4 * k)%nat ->
  (1 <= length grp <= 4)%nat ->
  ((length grp < 4)%nat -> post = []) ->
  Exists (fun g => valid_scalar g = false) grp ->
  _add_col_to_bytearray_with_padding (map to_scalar pre ++ grp ++ post) barr
  = Raised KeyError (barr ++ pack_column pre)
  /\ length (pack_column pre) = k.
Proof.
  intros Hlen Hgrp Hpost Hbad. split.
  - destruct grp as [|a [|b [|c [|d [|x grp]]]]]; cbn [length] in Hgrp;
      try lia.
    + rewrite (Hpost ltac:(cbn; lia)).
      apply (add_col_invalid_group pre _ k barr a (Int 0) (Int 0) (Int 0));
        try reflexivity; try discriminate; trivial.
      inversion Hbad as [? ? H|? ? H]; subst; [|inversion H].
      rewrite H. reflexivity.
    + rewrite (Hpost ltac:(cbn; lia)).
      apply (add_col_invalid_group pre _ k barr a b (Int 0) (Int 0));
        try reflexivity; try discriminate; trivial.
      destruct (valid_scalar a) eqn:Va, (valid_scalar b) eqn:Vb;
        try reflexivity.
      repeat match goal with
             | H : Exists _ _ |- _ => inversion H; clear H; subst
             end; congruence.
    + rewrite (Hpost ltac:(cbn; lia)).
      apply (add_col_invalid_group pre _ k barr a b c (Int 0));
        try reflexivity; try discriminate; trivial.
      destruct (valid_scalar a) eqn:Va, (valid_scalar b) eqn:Vb,
        (valid_scalar c) eqn:Vc; try reflexivity.
      repeat match goal with
             | H : Exists _ _ |- _ => inversion H; clear H; subst
             end; congruence.
    + apply (add_col_invalid_group pre _ k barr a b c d);
        try reflexivity; try discriminate; trivial.
      destruct (valid_scalar a) eqn:Va, (valid_scalar b) eqn:Vb,
        (valid_scalar c) eqn:Vc, (valid_scalar d) eqn:Vd; try reflexivity.
      repeat match goal with
             | H : Exists _ _ |- _ => inversion H; clear H; subst
             end; congruence.
  - rewrite length_pack_column, Hlen. unfold ceil4.
    replace (4 * k + 3)%nat with (3 + k * 4)%nat by lia.
    now rewrite Nat.div_add by lia.
Qed.

Lemma invalid_genotype_rejected_witness :
  length [HomRef; Het; HomAlt; Missing] = (4 * 1)%nat
  /\ _add_col_to_bytearray_with_padding
       [Int 0; Int 1; Int 2; NaN; Int 1; Int (-1); Int 3; Int 0; Int 2] []
     = Raised KeyError [0x4B].
Proof.
  split; [reflexivity|].
  refine (proj1 (invalid_genotype_rejected [HomRef; Het; HomAlt; Missing]
                   [Int 1; Int (-1); Int 3; Int 0] [Int 2] 1 [] eq_refl
                   _ _ _)).
  - cbn; lia.
  - cbn; lia.
  - apply Exists_cons_tl, Exists_cons_hd. reflexivity.
Defined.

(** ** The unpadded packer *)

Lemma loop_ext_multiple_of_4 (f1 f2 : nat -> result scalar) (n fuel : nat)
    (barr : bytearray) :
  (n mod 4 = 0)%nat ->
  (forall r, (r < n)%nat -> f1 r = f2 r) ->
  loop_while f1 n fuel 0 barr = loop_while f2 n fuel 0 barr.
Proof.
  intros Hmod Hf.
  assert (exists k, n = (4 * k)%nat) as [k ->].
  { exists (n / 4)%nat. pose proof (Nat.div_mod_eq n 4). lia. }
  exact (loop_ext_aligned f1 f2 k Hf fuel 0%nat barr).
Qed.

(** C9. When the row count is a multiple of 4 (the assertion of the
    unpadded packer holds), [_add_mat_col_to_bytearray] leaves the byte
    array exactly as [_add_mat_col_to_bytearray_with_padding] does, for
    every column index; on a matrix of valid genotype values both return
    having appended the packed bytes of that column. *)
Theorem unpadded_agrees_with_padded (m : ndarray) (col_ix : nat)
    (barr : bytearray) :
  (shape0 m mod 4 = 0)%nat ->
  _add_mat_col_to_bytearray m col_ix barr
  = _add_mat_col_to_bytearray_with_padding m col_ix barr
  /\ (wf_ndarray m -> valid_ndarray m -> (col_ix < shape1 m)%nat ->
      exists out,
        _add_mat_col_to_bytearray m col_ix barr = Returned (barr ++ out)
        /\ length out = (shape0 m / 4)%nat).
Proof.
  intros Hmod.
  assert (_add_mat_col_to_bytearray m col_ix barr
          = _add_mat_col_to_bytearray_with_padding m col_ix barr) as Heq.
  { unfold _add_mat_col_to_bytearray,
      _add_mat_col_to_bytearray_with_padding.
    rewrite Hmod. cbn [Nat.eqb negb].
    rewrite mat_while_loop, mat_pad_while_loop.
    apply loop_ext_multiple_of_4; [exact Hmod|].
    intros r Hr.
    replace (shape0 m <=? r)%nat with false
      by (symmetry; apply Nat.leb_gt; lia).
    reflexivity. }
  split; [exact Heq|].
  intros Hwf Hv Hc. rewrite Heq, (add_mat_col_column m col_ix barr Hwf Hc).
  destruct (valid_column_genotypes _ (valid_column_of_matrix m col_ix Hwf Hv Hc))
    as [gs Hgs].
  exists (pack_column gs). rewrite Hgs. split.
  - apply add_col_pack_column.
  - rewrite length_pack_column.
    rewrite <- (length_map to_scalar), <- Hgs, (length_column m col_ix Hwf).
    unfold ceil4.
    pose proof (Nat.div_mod_eq (shape0 m) 4) as Hdm.
    rewrite Hmod, Nat.add_0_r in Hdm.
    rewrite Hdm at 1.
    replace (4 * (shape0 m / 4) + 3)%nat
      with (3 + (shape0 m / 4) * 4)%nat by lia.
    now rewrite Nat.div_add by lia.
Qed.

(** ** The writers *)

Lemma write_m_loop_columns (m : ndarray) (ixs : list nat)
    (barr out : bytearray) :
  wf_ndarray m ->
  Forall (fun c => (c < shape1 m)%nat) ixs ->
  write_m_loop ixs m barr out
  = pack_columns_loop (map (column m) ixs) barr out.
Proof.
  intros Hwf Hixs. revert barr out.
  induction Hixs as [|c ixs Hc _ IH]; intros barr out; [reflexivity|].
  cbn [write_m_loop map pack_columns_loop].
  rewrite (add_mat_col_column m c barr Hwf Hc).
  destruct (_add_col_to_bytearray_with_padding (column m c) barr);
    [apply IH | reflexivity].
Qed.

Lemma seq_below (start len : nat) :
  Forall (fun c => (c < start + len)%nat) (seq start len).
Proof.
  apply Forall_forall. intros c Hin. apply in_seq in Hin. lia.
Qed.

Lemma write_m_to_bed_columns (m : ndarray) (magic_numbers : bool) :
  wf_ndarray m ->
  write_m_to_bed m magic_numbers
  = pack_columns_loop (columns m)
      (if magic_numbers then magic else []) [].
Proof.
  intros Hwf. unfold write_m_to_bed, columns.
  rewrite (write_m_loop_columns m _ _ _ Hwf (seq_below 0 (shape1 m))).
  destruct magic_numbers; reflexivity.
Qed.

Section RandomWriter.

Variables Rng Maf : Type.
Variable uniform : Rng -> Maf * Rng.
Variable binomial2 : Maf -> nat -> Rng -> list Z * Rng.

Lemma rand_bed_loop_columns (ixs : list nat) (n : Z) (rng : Rng)
    (cols : list (list scalar)) (barr out : bytearray) :
  streamed_columns uniform binomial2 (length ixs) n rng = Ok cols ->
  rand_bed_loop uniform binomial2 ixs n rng barr out
  = pack_columns_loop cols barr out.
Proof.
  revert rng cols barr out.
  induction ixs as [|c ixs IH]; intros rng cols barr out Hs;
    cbn [length streamed_columns] in Hs.
  - injection Hs as <-. reflexivity.
  - cbn [rand_bed_loop].
    destruct (_rand_gt_col uniform binomial2 n rng) as [[col rng']|e];
      cbn [bind] in Hs; [|discriminate].
    destruct (streamed_columns uniform binomial2 (length ixs) n rng')
      as [cols'|e] eqn:Hs'; cbn [bind] in Hs; [|discriminate].
    injection Hs as <-. cbn [pack_columns_loop].
    destruct (_add_col_to_bytearray_with_padding col barr);
      [apply IH, Hs' | reflexivity].
Qed.

Lemma rand_bed_file_columns (n p : Z) (magic_numbers : bool) (rng : Rng)
    (cols : list (list scalar)) :
  streamed_columns uniform binomial2 (Z.to_nat p) n rng = Ok cols ->
  rand_bed_file uniform binomial2 n p magic_numbers rng
  = pack_columns_loop cols (if magic_numbers then magic else []) [].
Proof.
  intros Hs. unfold rand_bed_file, range.
  rewrite (rand_bed_loop_columns _ n rng cols)
    by (rewrite length_seq; exact Hs).
  destruct magic_numbers; reflexivity.
Qed.

End RandomWriter.

(** C2. Streaming/materialized equivalence: for a matrix with [n] rows
    and [p] columns, packing column [col_ix] as a standalone sequence and
    packing it out of the matrix leave the same byte array, for every
    column; hence, when the streaming source yields the columns of the
    matrix, [rand_bed_file] and [write_m_to_bed] write the same file
    under the same header flag.  (Validity of the values is not needed:
    on an invalid value both paths raise at the same point.) *)
Theorem streaming_materialized_equivalence (Rng Maf : Type)
    (uniform : Rng -> Maf * Rng)
    (binomial2 : Maf -> nat -> Rng -> list Z * Rng)
    (m : ndarray) (rng : Rng) (magic_numbers : bool) :
  wf_ndarray m ->
  (forall col_ix barr, (col_ix < shape1 m)%nat ->
     _add_col_to_bytearray_with_padding (column m col_ix) barr
     = _add_mat_col_to_bytearray_with_padding m col_ix barr)
  /\ (streamed_columns uniform binomial2 (shape1 m) (Z.of_nat (shape0 m)) rng
      = Ok (columns m) ->
      rand_bed_file uniform binomial2 (Z.of_nat (shape0 m))
        (Z.of_nat (shape1 m)) magic_numbers rng
      = write_m_to_bed m magic_numbers).
Proof.
  intros Hwf. split.
  - intros col_ix barr Hc. symmetry. now apply add_mat_col_column.
  - intros Hs.
    rewrite (write_m_to_bed_columns m magic_numbers Hwf).
    apply rand_bed_file_columns. now rewrite Nat2Z.id.
Qed.

Lemma wf_sample_matrix : wf_ndarray sample_matrix.
Proof. split; [reflexivity | repeat constructor]. Qed.

Lemma streaming_materialized_equivalence_witness :
  wf_ndarray sample_matrix
  /\ streamed_columns sample_uniform sample_binomial2 2 5 0%nat
     = Ok (columns sample_matrix)
  /\ rand_bed_file sample_uniform sample_binomial2 5 2 true 0%nat
     = write_m_to_bed sample_matrix true.
Proof.
  split; [exact wf_sample_matrix|].
  split; [reflexivity|].
  exact (proj2 (streaming_materialized_equivalence nat nat sample_uniform
                  sample_binomial2 sample_matrix 0%nat true wf_sample_matrix)
           eq_refl).
Defined.

(** C10. With no column ([p = 0]) both writers leave a file of zero
    bytes whatever the header flag: the header bytes are put in the
    buffer, and the buffer is written only inside the loop over the
    columns, which runs no iteration. *)
Theorem no_column_no_byte (Rng Maf : Type) (uniform : Rng -> Maf * Rng)
    (binomial2 : Maf -> nat -> Rng -> list Z * Rng)
    (n : Z) (rng : Rng) (n0 : nat) (rs : list (list scalar))
    (magic_numbers : bool) :
  rand_bed_file uniform binomial2 n 0 magic_numbers rng = mk_written [] None
  /\ write_m_to_bed (mk_ndarray n0 0 rs) magic_numbers = mk_written [] None.
Proof. split; reflexivity. Qed.

Lemma unpadded_agrees_with_padded_witness :
  (shape0 sample_matrix_4x2 mod 4 = 0)%nat
  /\ _add_mat_col_to_bytearray sample_matrix_4x2 1 [7]
     = _add_mat_col_to_bytearray_with_padding sample_matrix_4x2 1 [7].
Proof.
  split; [reflexivity|].
  exact (proj1 (unpadded_agrees_with_padded sample_matrix_4x2 1 [7] eq_refl)).
Defined.

(** ** The bytes of a written file *)

Lemma pack_columns_loop_genotypes (gss : list (list genotype))
    (barr out : bytearray) :
  pack_columns_loop (map (map to_scalar) gss) barr out
  = mk_written
      (match gss with
       | [] => out
       | _ :: _ => out ++ barr ++ flat_map pack_column gss
       end) None.
Proof.
  revert barr out. induction gss as [|gs gss IH]; intros barr out;
    [reflexivity|].
  cbn [map pack_columns_loop]. rewrite add_col_pack_column, IH.
  f_equal. destruct gss as [|gs' gss].
  - cbn [flat_map]. now rewrite app_nil_r.
  - cbn [flat_map app]. now rewrite <- !app_assoc.
Qed.

Lemma packed_genotypes (gss : list (list genotype)) :
  Forall2
    (fun col bytes =>
       _add_col_to_bytearray_with_padding col [] = Returned bytes)
    (map (map to_scalar) gss) (map pack_column gss).
Proof.
  induction gss as [|gs gss IH]; constructor; [|exact IH].
  apply (add_col_pack_column gs []).
Qed.

Lemma columns_at_genotypes (m : ndarray) (ixs : list nat) :
  wf_ndarray m -> valid_ndarray m ->
  Forall (fun c => (c < shape1 m)%nat) ixs ->
  exists gss,
    map (column m) ixs = map (map to_scalar) gss
    /\ length gss = length ixs
    /\ Forall (fun gs => length gs = shape0 m) gss.
Proof.
  intros Hwf Hv Hixs.
  induction Hixs as [|c ixs Hc _ (gss & Hcols & Hlen & Hrows)].
  - exists []. repeat split. constructor.
  - destruct (valid_column_genotypes _
                (valid_column_of_matrix m c Hwf Hv Hc)) as [gs Hgs].
    exists (gs :: gss). cbn [map length]. rewrite Hcols, Hgs, Hlen.
    repeat split. constructor; [|exact Hrows].
    rewrite <- (length_map to_scalar), <- Hgs. now apply length_column.
Qed.

Lemma columns_genotypes (m : ndarray) :
  wf_ndarray m -> valid_ndarray m ->
  exists gss,
    columns m = map (map to_scalar) gss
    /\ length gss = shape1 m
    /\ Forall (fun gs => length gs = shape0 m) gss.
Proof.
  intros Hwf Hv.
  destruct (columns_at_genotypes m _ Hwf Hv (seq_below 0 (shape1 m)))
    as (gss & Hcols & Hlen & Hrows).
  exists gss. rewrite length_seq in Hlen. now repeat split.
Qed.

Lemma length_flat_pack_column (gss : list (list genotype)) (n : nat) :
  Forall (fun gs => length gs = n) gss ->
  length (flat_map pack_column gss) = (length gss * ceil4 n)%nat.
Proof.
  induction 1 as [|gs gss Hgs _ IH]; [reflexivity|].
  cbn [flat_map length]. rewrite length_app, length_pack_column, Hgs, IH.
  lia.
Qed.

(** File-size law for at least one column: with the header, the matrix
    writer leaves [3 + p * ceil(n/4)] bytes. *)
Lemma write_m_to_bed_size (m : ndarray) :
  wf_ndarray m -> valid_ndarray m -> (1 <= shape1 m)%nat ->
  raised (write_m_to_bed m true) = None
  /\ length (contents (write_m_to_bed m true))
     = (3 + shape1 m * ceil4 (shape0 m))%nat.
Proof.
  intros Hwf Hv Hp.
  destruct (columns_genotypes m Hwf Hv) as (gss & Hcols & Hlen & Hrows).
  rewrite (write_m_to_bed_columns m true Hwf), Hcols,
    pack_columns_loop_genotypes.
  destruct gss as [|gs gss]; [cbn in Hlen; lia|].
  split; [reflexivity|].
  cbn [contents app]. rewrite length_app.
  rewrite (length_flat_pack_column _ _ Hrows), Hlen. reflexivity.
Qed.

(** C5 at [p = 0]: the matrix writer and the streaming writer, asked for
    the header on a (4, 0) matrix, leave zero bytes where the file-size
    law [3 + p * ceil(n/4)] asks for the 3 header bytes. *)
Theorem file_size_law_without_columns :
  wf_ndarray sample_matrix_4x0
  /\ valid_ndarray sample_matrix_4x0
  /\ length (contents (write_m_to_bed sample_matrix_4x0 true)) = 0%nat
  /\ length (contents
               (rand_bed_file sample_uniform sample_binomial2 4 0 true 0%nat))
     = 0%nat
  /\ (3 + 0 * ceil4 4)%nat = 3%nat.
Proof.
  repeat split; repeat constructor.
Qed.

(** ** The header *)

Lemma encode_group_magic (t0 t1 t2 t3 : genotype) :
  encode_group t0 t1 t2 t3 = 0x6C -> t3 = Missing.
Proof. destruct t0, t1, t2, t3; cbv; congruence. Qed.

Lemma no_missing_genotypes (gs : list genotype) :
  no_missing (map to_scalar gs) -> Forall (fun t => t <> Missing) gs.
Proof.
  unfold no_missing. rewrite Forall_map. apply Forall_impl.
  intros t Ht ->. discriminate Ht.
Qed.

Lemma pack_column_first_byte (gs : list genotype) (b : Z) (rest : list Z) :
  Forall (fun t => t <> Missing) gs ->
  pack_column gs = b :: rest -> b <> 0x6C.
Proof.
  intros Hgs Hpack Hb.
  destruct gs as [|t gs']; [discriminate Hpack|].
  rewrite pack_column_unfold in Hpack by discriminate.
  injection Hpack as Hhead _. rewrite Hb in Hhead.
  apply encode_group_magic in Hhead.
  change (nth 3 (t :: gs') HomRef = Missing) in Hhead.
  destruct (Nat.lt_ge_cases 3 (length (t :: gs'))) as [Hlt|Hge].
  - rewrite Forall_forall in Hgs.
    apply (Hgs (nth 3 (t :: gs') HomRef)); [now apply nth_In | exact Hhead].
  - rewrite nth_overflow in Hhead by exact Hge. discriminate Hhead.
Qed.

Lemma flat_pack_column_not_magic (gss : list (list genotype)) :
  Forall (Forall (fun t => t <> Missing)) gss ->
  ~ begins_with magic (flat_map pack_column gss).
Proof.
  induction 1 as [|gs gss Hgs _ IH]; intros [rest Hrest].
  - discriminate Hrest.
  - cbn [flat_map] in Hrest.
    destruct (pack_column gs) as [|b bytes] eqn:Hpack.
    + apply IH. exists rest. exact Hrest.
    + injection Hrest as Hb _.
      exact (pack_column_first_byte gs b bytes Hgs Hpack Hb).
Qed.

Lemma column_Forall (P : scalar -> Prop) (m : ndarray) (col_ix : nat) :
  wf_ndarray m -> Forall (Forall P) (rows m) -> (col_ix < shape1 m)%nat ->
  Forall P (column m col_ix).
Proof.
  intros [_ Hall] HP Hc. unfold column.
  apply Forall_map, Forall_forall. intros row Hin.
  rewrite Forall_forall in Hall, HP.
  specialize (Hall row Hin). specialize (HP row Hin).
  rewrite Forall_forall in HP. apply HP, nth_In. lia.
Qed.

Lemma columns_no_missing (m : ndarray) :
  wf_ndarray m -> Forall no_missing (rows m) ->
  Forall no_missing (columns m).
Proof.
  intros Hwf Hnm. unfold columns. apply Forall_map.
  eapply Forall_impl; [|exact (seq_below 0 (shape1 m))].
  intros c Hc. now apply column_Forall.
Qed.

Lemma all_no_missing_genotypes (gss : list (list genotype)) :
  Forall no_missing (map (map to_scalar) gss) ->
  Forall (Forall (fun t => t <> Missing)) gss.
Proof.
  rewrite Forall_map. apply Forall_impl. exact no_missing_genotypes.
Qed.

Lemma matrix_writer_bytes (m : ndarray) :
  wf_ndarray m -> valid_ndarray m ->
  exists packed,
    Forall2
      (fun col bytes =>
         _add_col_to_bytearray_with_padding col [] = Returned bytes)
      (columns m) packed
    /\ ((1 <= shape1 m)%nat ->
        write_m_to_bed m true = mk_written (magic ++ concat packed) None)
    /\ write_m_to_bed m false = mk_written (concat packed) None
    /\ (Forall no_missing (rows m) -> ~ begins_with magic (concat packed)).
Proof.
  intros Hwf Hv.
  destruct (columns_genotypes m Hwf Hv) as (gss & Hcols & Hlen & _).
  exists (map pack_column gss).
  rewrite !(write_m_to_bed_columns m _ Hwf), <- flat_map_concat_map.
  split; [rewrite Hcols; apply packed_genotypes|].
  split; [|split].
  - intros Hp. rewrite Hcols, pack_columns_loop_genotypes.
    destruct gss; [cbn in Hlen; lia | reflexivity].
  - rewrite Hcols, pack_columns_loop_genotypes.
    destruct gss; reflexivity.
  - intros Hnm. apply flat_pack_column_not_magic, all_no_missing_genotypes.
    rewrite <- Hcols. now apply columns_no_missing.
Qed.

Section RandomValues.

Variables Rng Maf : Type.
Variable uniform : Rng -> Maf * Rng.
Variable binomial2 : Maf -> nat -> Rng -> list Z * Rng.

(** A binomial draw with 2 trials is 0, 1 or 2. *)
Hypothesis binomial2_range :
  forall f k rng, Forall (fun z => 0 <= z <= 2) (fst (binomial2 f k rng)).

Lemma astype_byte_genotypes (draws : list Z) :
  Forall (fun z => 0 <= z <= 2) draws ->
  exists gs,
    map astype_byte draws = map to_scalar gs
    /\ Forall (fun t => t <> Missing) gs.
Proof.
  induction 1 as [|z draws Hz _ (gs & Hmap & Hgs)].
  - exists []. split; constructor.
  - assert (z = 0 \/ z = 1 \/ z = 2) as [-> | [-> | ->]] by lia.
    + exists (HomRef :: gs). cbn [map]. rewrite Hmap.
      split; [reflexivity | constructor; [discriminate | exact Hgs]].
    + exists (Het :: gs). cbn [map]. rewrite Hmap.
      split; [reflexivity | constructor; [discriminate | exact Hgs]].
    + exists (HomAlt :: gs). cbn [map]. rewrite Hmap.
      split; [reflexivity | constructor; [discriminate | exact Hgs]].
Qed.

Lemma rand_gt_col_genotypes (n : Z) (rng : Rng) :
  0 <= n ->
  exists gs rng',
    _rand_gt_col uniform binomial2 n rng = Ok (map to_scalar gs, rng')
    /\ Forall (fun t => t <> Missing) gs.
Proof.
  intros Hn. unfold _rand_gt_col.
  destruct (uniform rng) as [maf rng1].
  replace (n <? 0) with false by (symmetry; apply Z.ltb_ge; lia).
  pose proof (binomial2_range maf (Z.to_nat n) rng1) as Hr.
  destruct (binomial2 maf (Z.to_nat n) rng1) as [draws rng2].
  destruct (astype_byte_genotypes draws Hr) as (gs & -> & Hgs).
  now exists gs, rng2.
Qed.

Lemma streamed_genotypes (n : Z) (k : nat) (rng : Rng) :
  0 <= n ->
  exists gss,
    streamed_columns uniform binomial2 k n rng
    = Ok (map (map to_scalar) gss)
    /\ length gss = k
    /\ Forall (Forall (fun t => t <> Missing)) gss.
Proof.
  intros Hn. revert rng. induction k as [|k IH]; intros rng.
  - exists []. repeat split. constructor.
  - cbn [streamed_columns].
    destruct (rand_gt_col_genotypes n rng Hn) as (gs & rng' & -> & Hgs).
    cbn [bind].
    destruct (IH rng') as (gss & -> & Hlen & Hall). cbn [bind].
    exists (gs :: gss). cbn [map length]. rewrite Hlen.
    repeat split. now constructor.
Qed.

Lemma streaming_writer_bytes (n p : Z) (rng : Rng) :
  0 <= n ->
  exists cols packed,
    streamed_columns uniform binomial2 (Z.to_nat p) n rng = Ok cols
    /\ Forall2
         (fun col bytes =>
            _add_col_to_bytearray_with_padding col [] = Returned bytes)
         cols packed
    /\ (1 <= p ->
        rand_bed_file uniform binomial2 n p true rng
        = mk_written (magic ++ concat packed) None)
    /\ rand_bed_file uniform binomial2 n p false rng
       = mk_written (concat packed) None
    /\ ~ begins_with magic (concat packed).
Proof.
  intros Hn.
  destruct (streamed_genotypes n (Z.to_nat p) rng Hn)
    as (gss & Hs & Hlen & Hall).
  exists (map (map to_scalar) gss), (map pack_column gss).
  rewrite !(rand_bed_file_columns _ _ uniform binomial2 n p _ rng _ Hs),
    <- flat_map_concat_map, !pack_columns_loop_genotypes.
  split; [exact Hs|]. split; [apply packed_genotypes|].
  split; [|split].
  - intros Hp. destruct gss; [cbn in Hlen; lia | reflexivity].
  - destruct gss; reflexivity.
  - now apply flat_pack_column_not_magic.
Qed.

End RandomValues.

(** C6, as the code has it.  With at least one column, the output of a
    write with the header flag true is [0x6C, 0x1B, 0x01] followed by the
    packed bytes of columns 0 to p-1 in order.  The output of a write
    with the header flag false is exactly those packed bytes, with
    nothing before them; it does not begin with the header sequence when
    no value is Missing, which is always so for the streaming writer. *)
Theorem header_law (Rng Maf : Type) (uniform : Rng -> Maf * Rng)
    (binomial2 : Maf -> nat -> Rng -> list Z * Rng)
    (m : ndarray) (n p : Z) (rng : Rng) :
  (forall f k r, Forall (fun z => 0 <= z <= 2) (fst (binomial2 f k r))) ->
  wf_ndarray m -> valid_ndarray m -> 0 <= n ->
  (exists packed,
      Forall2
        (fun col bytes =>
           _add_col_to_bytearray_with_padding col [] = Returned bytes)
        (columns m) packed
      /\ ((1 <= shape1 m)%nat ->
          write_m_to_bed m true = mk_written (magic ++ concat packed) None)
      /\ write_m_to_bed m false = mk_written (concat packed) None
      /\ (Forall no_missing (rows m) ->
          ~ begins_with magic (concat packed)))
  /\ (exists cols packed,
        streamed_columns uniform binomial2 (Z.to_nat p) n rng = Ok cols
        /\ Forall2
             (fun col bytes =>
                _add_col_to_bytearray_with_padding col [] = Returned bytes)
             cols packed
        /\ (1 <= p ->
            rand_bed_file uniform binomial2 n p true rng
            = mk_written (magic ++ concat packed) None)
        /\ rand_bed_file uniform binomial2 n p false rng
           = mk_written (concat packed) None
        /\ ~ begins_with magic (concat packed)).
Proof.
  intros Hrange Hwf Hv Hn. split.
  - now apply matrix_writer_bytes.
  - now apply streaming_writer_bytes.
Qed.

Lemma sample_binomial2_range (f k r : nat) :
  Forall (fun z => 0 <= z <= 2) (fst (sample_binomial2 f k r)).
Proof.
  unfold sample_binomial2. cbn [fst]. apply Forall_map, Forall_forall.
  intros i _. pose proof (Nat.mod_upper_bound (f + i) 3). lia.
Qed.

Lemma valid_sample_matrix : valid_ndarray sample_matrix.
Proof. repeat constructor. Qed.

Lemma header_law_witness :
  wf_ndarray sample_matrix /\ valid_ndarray sample_matrix /\ 0 <= 5
  /\ exists packed,
       Forall2
         (fun col bytes =>
            _add_col_to_bytearray_with_padding col [] = Returned bytes)
         (columns sample_matrix) packed
       /\ ((1 <= shape1 sample_matrix)%nat ->
           write_m_to_bed sample_matrix true
           = mk_written (magic ++ concat packed) None)
       /\ write_m_to_bed sample_matrix false
          = mk_written (concat packed) None
       /\ (Forall no_missing (rows sample_matrix) ->
           ~ begins_with magic (concat packed)).
Proof.
  assert (0 <= 5) as H5 by lia.
  split; [exact wf_sample_matrix|].
  split; [exact valid_sample_matrix|].
  split; [exact H5|].
  exact (proj1 (header_law nat nat sample_uniform sample_binomial2
                  sample_matrix 5 2 0%nat sample_binomial2_range
                  wf_sample_matrix valid_sample_matrix H5)).
Defined.

(** C6 as stated fails: written without the header, this matrix of
    valid genotype values gives a file that is the header sequence. *)
Lemma headerless_file_begins_with_magic :
  wf_ndarray sample_matrix_12x1
  /\ valid_ndarray sample_matrix_12x1
  /\ write_m_to_bed sample_matrix_12x1 false
     = mk_written [0x6C; 0x1B; 0x01] None
  /\ begins_with [0x6C; 0x1B; 0x01]
       (contents (write_m_to_bed sample_matrix_12x1 false)).
Proof.
  split; [split; [reflexivity | repeat constructor]|].
  split; [repeat constructor|].
  split; [reflexivity|].
  exists []. reflexivity.
Qed.

(** ** Negative dimensions *)

(** C8, as the code has it.  A negative [n] with at least one column
    makes [rand_bed_file] raise (numpy's [ValueError], from the first
    column's draw) before any byte is written; with [p <= 0] it raises
    nothing and leaves an empty file, whatever [n] is.  [rand_gt_mat]
    raises [ValueError] for every negative [n] or negative [p]. *)
Theorem negative_dimensions (Rng Maf : Type) (uniform : Rng -> Maf * Rng)
    (uniform_many : nat -> Rng -> list Maf * Rng)
    (binomial2 : Maf -> nat -> Rng -> list Z * Rng)
    (n p : Z) (magic_numbers : bool) (rng : Rng) :
  (n < 0 -> 1 <= p ->
   rand_bed_file uniform binomial2 n p magic_numbers rng
   = mk_written [] (Some ValueError))
  /\ (p <= 0 ->
      rand_bed_file uniform binomial2 n p magic_numbers rng
      = mk_written [] None)
  /\ (n < 0 \/ p < 0 ->
      rand_gt_mat uniform_many binomial2 n p rng = Raise ValueError).
Proof.
  split; [|split].
  - intros Hn Hp. unfold rand_bed_file, range.
    destruct (Z.to_nat p) as [|k] eqn:Hk; [lia|].
    cbn [seq rand_bed_loop]. unfold _rand_gt_col.
    destruct (uniform rng) as [maf rng'].
    replace (n <? 0) with true by (symmetry; apply Z.ltb_lt; lia).
    reflexivity.
  - intros Hp. unfold rand_bed_file, range.
    replace (Z.to_nat p) with 0%nat by lia. reflexivity.
  - intros Hneg. unfold rand_gt_mat.
    destruct (p <? 0) eqn:Hp; [reflexivity|].
    apply Z.ltb_ge in Hp.
    assert ((n <? 0) = true) as Hn by (apply Z.ltb_lt; lia).
    destruct (uniform_many (Z.to_nat p) rng) as [maf rng'].
    destruct maf as [|f maf]; cbn [binomial_columns bind fst column_stack].
    + reflexivity.
    + rewrite Hn. reflexivity.
Qed.

Lemma negative_dimensions_witness :
  (-3 < 0 /\ 1 <= 2)
  /\ rand_bed_file sample_uniform sample_binomial2 (-3) 2 true 0%nat
     = mk_written [] (Some ValueError)
  /\ rand_gt_mat sample_uniform_many sample_binomial2 (-3) 0 0%nat
     = Raise ValueError.
Proof.
  assert (-3 < 0) as Hn by lia.
  assert (1 <= 2) as Hp by lia.
  split; [split; assumption|].
  split.
  - exact (proj1 (negative_dimensions nat nat sample_uniform
                    sample_uniform_many sample_binomial2 (-3) 2 true 0%nat)
             Hn Hp).
  - exact (proj2 (proj2 (negative_dimensions nat nat sample_uniform
                           sample_uniform_many sample_binomial2 (-3) 0 true
                           0%nat))
             (or_introl Hn)).
Defined.

(** C8 as stated fails: with a negative [p], and with a negative [n]
    and no column, [rand_bed_file] returns without an error. *)
Lemma nonpositive_p_accepted :
  rand_bed_file sample_uniform sample_binomial2 5 (-1) true 0%nat
  = mk_written [] None
  /\ rand_bed_file sample_uniform sample_binomial2 (-5) 0 true 0%nat
     = mk_written [] None.
Proof. split; reflexivity. Qed.

(** * Further properties of the packers *)

(** ** The buffer is only appended to *)

Lemma append_frame (barr1 barr2 : bytearray) (b : Z) :
  append (barr1 ++ barr2) b = extend barr1 (append barr2 b).
Proof.
  unfold append. destruct ((0 <=? b) && (b <? 256)); cbn [extend];
    [now rewrite app_assoc | reflexivity].
Qed.

Lemma loop_frame (fetch : nat -> result scalar) (n : nat) :
  forall fuel row_ix barr1 barr2,
    loop_while fetch n fuel row_ix (barr1 ++ barr2)
    = extend barr1 (loop_while fetch n fuel row_ix barr2).
Proof.
  induction fuel as [|fuel IH]; intros row_ix barr1 barr2;
    cbn [loop_while].
  - destruct (row_ix <? n)%nat; reflexivity.
  - destruct (row_ix <? n)%nat; [|reflexivity].
    rewrite for_range_group.
    destruct (group_at fetch row_ix) as [b|e]; cbn [bind]; [|reflexivity].
    rewrite append_frame. unfold append.
    destruct ((0 <=? b) && (b <? 256)); cbn [extend];
      [|reflexivity].
    rewrite <- IH, app_assoc. reflexivity.
Qed.

(** X1. What a packer does to the buffer does not depend on what the
    buffer holds: the outcome on [barr] is the outcome on an empty buffer
    with [barr] in front, for each of the three packers, on any input. *)
Theorem packers_only_append (col : list scalar) (m : ndarray)
    (col_ix : nat) (barr : bytearray) :
  _add_col_to_bytearray_with_padding col barr
  = extend barr (_add_col_to_bytearray_with_padding col [])
  /\ _add_mat_col_to_bytearray_with_padding m col_ix barr
     = extend barr (_add_mat_col_to_bytearray_with_padding m col_ix [])
  /\ _add_mat_col_to_bytearray m col_ix barr
     = extend barr (_add_mat_col_to_bytearray m col_ix []).
Proof.
  split; [|split].
  - unfold _add_col_to_bytearray_with_padding.
    rewrite !col_pad_while_loop, <- loop_frame, app_nil_r. reflexivity.
  - unfold _add_mat_col_to_bytearray_with_padding.
    rewrite !mat_pad_while_loop, <- loop_frame, app_nil_r. reflexivity.
  - unfold _add_mat_col_to_bytearray.
    destruct (negb (shape0 m mod 4 =? 0)%nat); cbn [extend].
    + now rewrite app_nil_r.
    + rewrite !mat_while_loop, <- loop_frame, app_nil_r. reflexivity.
Qed.

(** ** Every outcome of the column packer *)

Lemma add_code_ok (b b' : Z) (g : scalar) :
  add_code b g = Ok b' ->
  valid_scalar g = true /\ exists c, 0 <= c <= 3 /\ b' = 4 * b + c.
Proof.
  intros Hadd. split.
  - destruct (valid_scalar g) eqn:Hv; [reflexivity|].
    rewrite (add_code_invalid b g Hv) in Hadd. discriminate.
  - revert Hadd. unfold add_code. rewrite Z.shiftl_mul_pow2 by lia.
    change (2 ^ 2) with 4.
    destruct (isnan g).
    + intros [= <-]. exists 1. lia.
    + cbn [GT_TO_BED_BITS dict_get].
      repeat match goal with
             | |- context [if ?c then _ else _] => destruct c
             end; cbn [bind]; intros [= <-];
        eexists; (split; [|rewrite Z.mul_comm; reflexivity]); lia.
Qed.

Lemma group_at_ok (fetch : nat -> result scalar) (row_ix : nat) (b : Z) :
  group_at fetch row_ix = Ok b ->
  byte_range b
  /\ forall j, (j < 4)%nat ->
       exists g, fetch (row_ix + j)%nat = Ok g /\ valid_scalar g = true.
Proof.
  unfold group_at.
  destruct (fetch (row_ix + 3)%nat) as [g3|] eqn:F3; cbn [bind];
    [|discriminate].
  destruct (add_code 0 g3) as [b3|] eqn:A3; cbn [bind]; [|discriminate].
  destruct (fetch (row_ix + 2)%nat) as [g2|] eqn:F2; cbn [bind];
    [|discriminate].
  destruct (add_code b3 g2) as [b2|] eqn:A2; cbn [bind]; [|discriminate].
  destruct (fetch (row_ix + 1)%nat) as [g1|] eqn:F1; cbn [bind];
    [|discriminate].
  destruct (add_code b2 g1) as [b1|] eqn:A1; cbn [bind]; [|discriminate].
  destruct (fetch row_ix) as [g0|] eqn:F0; cbn [bind]; [|discriminate].
  destruct (add_code b1 g0) as [b0|] eqn:A0; cbn [bind]; [|discriminate].
  intros [= <-].
  apply add_code_ok in A3, A2, A1, A0.
  destruct A3 as (V3 & c3 & ? & ->), A2 as (V2 & c2 & ? & ->),
    A1 as (V1 & c1 & ? & ->), A0 as (V0 & c0 & ? & ->).
  split; [unfold byte_range; lia|].
  intros j Hj.
  assert (j = 0 \/ j = 1 \/ j = 2 \/ j = 3)%nat
    as [-> | [-> | [-> | ->]]] by lia.
  - rewrite Nat.add_0_r. now exists g0.
  - now exists g1.
  - now exists g2.
  - now exists g3.
Qed.

(** A loop that returns has read only valid values, from [row_ix] on. *)
Lemma loop_returned_valid (fetch : nat -> result scalar) (n : nat) :
  forall fuel row_ix barr barr',
    loop_while fetch n fuel row_ix barr = Returned barr' ->
    forall r, (row_ix <= r < n)%nat ->
      exists g, fetch r = Ok g /\ valid_scalar g = true.
Proof.
  induction fuel as [|fuel IH]; intros row_ix barr barr' Hloop r Hr;
    cbn [loop_while] in Hloop.
  - replace (row_ix <? n)%nat with true in Hloop
      by (symmetry; apply Nat.ltb_lt; lia).
    discriminate.
  - replace (row_ix <? n)%nat with true in Hloop
      by (symmetry; apply Nat.ltb_lt; lia).
    rewrite for_range_group in Hloop.
    destruct (group_at fetch row_ix) as [b|e] eqn:Hg; cbn [bind] in Hloop;
      [|discriminate].
    destruct (group_at_ok fetch row_ix b Hg) as [_ Hreads].
    destruct (append barr b) as [barr1|]; [|discriminate].
    destruct (Nat.lt_ge_cases r (row_ix + 4)) as [Hin|Hout].
    + replace r with (row_ix + (r - row_ix))%nat by lia.
      apply Hreads. lia.
    + apply (IH _ _ _ Hloop). lia.
Qed.

(** When every read succeeds, the loop returns or raises [KeyError],
    and the bytes it appends are bytes. *)
Lemma loop_outcomes (fetch : nat -> result scalar) (n : nat) :
  (forall r, exists g, fetch r = Ok g) ->
  forall fuel row_ix barr,
    (n <= fuel + row_ix)%nat ->
    exists out,
      Forall byte_range out
      /\ (loop_while fetch n fuel row_ix barr = Returned (barr ++ out)
          \/ loop_while fetch n fuel row_ix barr
             = Raised KeyError (barr ++ out)).
Proof.
  intros Hf. induction fuel as [|fuel IH]; intros row_ix barr Hfuel.
  - exists []. rewrite loop_exit, app_nil_r by lia. split; [constructor|].
    now left.
  - destruct (Nat.lt_ge_cases row_ix n) as [Hlt|Hge].
    + cbn [loop_while].
      replace (row_ix <? n)%nat with true
        by (symmetry; apply Nat.ltb_lt; lia).
      rewrite for_range_group.
      destruct (group_at fetch row_ix) as [b|e] eqn:Hg; cbn [bind].
      * destruct (group_at_ok fetch row_ix b Hg) as [Hb _].
        unfold append.
        replace ((0 <=? b) && (b <? 256)) with true
          by (symmetry; apply andb_true_intro;
              split; [apply Z.leb_le | apply Z.ltb_lt];
              unfold byte_range in Hb; lia).
        destruct (IH (row_ix + 4)%nat (barr ++ [b])) as (out & Hout & Hres);
          [lia|].
        exists (b :: out). split; [now constructor|].
        rewrite <- app_assoc in Hres. exact Hres.
      * exists []. split; [constructor|]. right. rewrite app_nil_r.
        f_equal. revert Hg. unfold group_at.
        repeat match goal with
               | |- context [fetch ?r] =>
                   let g := fresh "g" in
                   let H := fresh "H" in
                   destruct (Hf r) as [g H]; rewrite H; clear H;
                   cbn [bind]
               | |- context [add_code ?b ?g] =>
                   let H := fresh "Hadd" in
                   destruct (add_code b g) eqn:H; cbn [bind];
                   [clear H
                   | apply add_code_raises in H; intros [= <-]; exact H]
               end.
        discriminate.
    + exists []. rewrite loop_exit, app_nil_r by lia.
      split; [constructor|]. now left.
Qed.

Lemma fetch_col_total (col : list scalar) (r : nat) :
  exists g,
    (if (length col <=? r)%nat then Ok (Int 0) else getitem col r) = Ok g.
Proof.
  destruct (length col <=? r)%nat eqn:Hle; [now exists (Int 0)|].
  apply Nat.leb_gt in Hle. unfold getitem.
  destruct (nth_error col r) as [g|] eqn:Hnth; [now exists g|].
  apply nth_error_None in Hnth. lia.
Qed.

Lemma add_col_returned_valid (col : list scalar) (barr barr' : bytearray) :
  _add_col_to_bytearray_with_padding col barr = Returned barr' ->
  valid_column col.
Proof.
  unfold _add_col_to_bytearray_with_padding. rewrite col_pad_while_loop.
  intros Hloop. apply Forall_forall. intros g Hin.
  apply In_nth_error in Hin. destruct Hin as [r Hr].
  assert (r < length col)%nat as Hlt
    by (apply nth_error_Some; congruence).
  destruct (loop_returned_valid _ _ _ _ _ _ Hloop r) as (g' & Hg' & Hv);
    [lia|].
  cbn beta in Hg'.
  replace (length col <=? r)%nat with false in Hg'
    by (symmetry; apply Nat.leb_gt; lia).
  unfold getitem in Hg'. rewrite Hr in Hg'. now injection Hg' as ->.
Qed.

(** X2. On any column the packer either returns, and then every value
    is one of the four states, or raises [KeyError], and then some value
    is not: it raises nothing else ([IndexError], [ValueError]); either
    way the buffer is what it was followed by values in [0, 256). *)
Theorem add_col_outcomes (col : list scalar) (barr : bytearray) :
  exists out,
    Forall byte_range out
    /\ ((_add_col_to_bytearray_with_padding col barr = Returned (barr ++ out)
         /\ valid_column col)
        \/ (_add_col_to_bytearray_with_padding col barr
            = Raised KeyError (barr ++ out)
            /\ ~ valid_column col)).
Proof.
  pose proof (loop_outcomes _ (length col) (fetch_col_total col)
                (length col) 0%nat barr (Nat.le_add_r _ _))
    as (out & Hout & Hres).
  rewrite <- !col_pad_while_loop in Hres.
  change (col_pad_while (length col) col (length col) 0 barr)
    with (_add_col_to_bytearray_with_padding col barr) in Hres.
  exists out. split; [exact Hout|].
  destruct Hres as [Hret | Hraise].
  - left. split; [exact Hret|]. exact (add_col_returned_valid _ _ _ Hret).
  - right. split; [exact Hraise|]. intros Hv.
    destruct (valid_column_genotypes col Hv) as [gs ->].
    rewrite add_col_pack_column in Hraise. discriminate.
Qed.

(** ** Reading a packed column back *)

Lemma skipn_pack_column (g : nat) (gs : list genotype) :
  skipn g (pack_column gs) = pack_column (skipn (4 * g) gs).
Proof.
  revert gs. induction g as [|g IH]; intros gs; [reflexivity|].
  destruct gs as [|t gs'].
  - rewrite skipn_nil. reflexivity.
  - rewrite pack_column_unfold by discriminate.
    rewrite skipn_cons, IH, skipn_shift.
    replace (4 + 4 * g)%nat with (4 * S g)%nat by lia. reflexivity.
Qed.

Lemma nth_hd_skipn (l : list Z) (g : nat) :
  nth g l 0 = hd 0 (skipn g l).
Proof.
  revert l. induction g as [|g IH]; intros [|x l]; try reflexivity.
  cbn [nth skipn]. apply IH.
Qed.

Lemma nth_pack_column (gs : list genotype) (g : nat) :
  (4 * g < length gs)%nat ->
  nth g (pack_column gs) 0
  = encode_group (nth (4 * g) gs HomRef) (nth (4 * g + 1) gs HomRef)
      (nth (4 * g + 2) gs HomRef) (nth (4 * g + 3) gs HomRef).
Proof.
  intros Hlt.
  rewrite nth_hd_skipn, skipn_pack_column, (pack_column_skipn gs _ Hlt).
  reflexivity.
Qed.

Lemma slot_encode_group (t0 t1 t2 t3 : genotype) :
  slot (encode_group t0 t1 t2 t3) 0 = code t0
  /\ slot (encode_group t0 t1 t2 t3) 1 = code t1
  /\ slot (encode_group t0 t1 t2 t3) 2 = code t2
  /\ slot (encode_group t0 t1 t2 t3) 3 = code t3.
Proof. destruct t0, t1, t2, t3; repeat split. Qed.

Lemma slot_pack_column (gs : list genotype) (i : nat) :
  (i < length gs)%nat ->
  slot (nth (i / 4) (pack_column gs) 0) (i mod 4)
  = code (nth i gs HomRef).
Proof.
  intros Hi.
  pose proof (Nat.div_mod_eq i 4) as Hdm.
  pose proof (Nat.mod_upper_bound i 4 ltac:(lia)) as Hm.
  rewrite nth_pack_column by lia.
  destruct (slot_encode_group (nth (4 * (i / 4)) gs HomRef)
              (nth (4 * (i / 4) + 1) gs HomRef)
              (nth (4 * (i / 4) + 2) gs HomRef)
              (nth (4 * (i / 4) + 3) gs HomRef)) as (S0 & S1 & S2 & S3).
  assert (i mod 4 = 0 \/ i mod 4 = 1 \/ i mod 4 = 2 \/ i mod 4 = 3)%nat
    as [E | [E | [E | E]]] by lia; rewrite E in *.
  - rewrite S0. f_equal. f_equal. lia.
  - rewrite S1. f_equal. f_equal. lia.
  - rewrite S2. f_equal. f_equal. lia.
  - rewrite S3. f_equal. f_equal. lia.
Qed.

Lemma code_injective (t t' : genotype) : code t = code t' -> t = t'.
Proof. destruct t, t'; cbv; congruence. Qed.

(** X3. Every individual can be read back: in the bytes packed from a
    column of valid genotypes, the 2-bit field at slot [i mod 4] of byte
    [i / 4] is the code of individual [i], and distinct genotypes have
    distinct codes. *)
Theorem slot_holds_code (gs : list genotype) (barr : bytearray) (i : nat) :
  (i < length gs)%nat ->
  exists out,
    _add_col_to_bytearray_with_padding (map to_scalar gs) barr
    = Returned (barr ++ out)
    /\ slot (nth (i / 4) out 0) (i mod 4) = code (nth i gs HomRef)
    /\ forall t, code t = code (nth i gs HomRef) -> t = nth i gs HomRef.
Proof.
  intros Hi. exists (pack_column gs).
  split; [apply add_col_pack_column|].
  split; [now apply slot_pack_column|].
  intros t. apply code_injective.
Qed.

Lemma slot_holds_code_witness :
  (5 < length [Het; Missing; HomAlt; HomRef; Missing; HomAlt; Het])%nat
  /\ exists out,
       _add_col_to_bytearray_with_padding
         (map to_scalar [Het; Missing; HomAlt; HomRef; Missing; HomAlt; Het])
         [7]
       = Returned ([7] ++ out)
       /\ slot (nth (5 / 4) out 0) (5 mod 4) = code HomAlt.
Proof.
  assert (5 < length [Het; Missing; HomAlt; HomRef; Missing; HomAlt; Het])%nat
    as H by (cbn; lia).
  split; [exact H|].
  destruct (slot_holds_code
              [Het; Missing; HomAlt; HomRef; Missing; HomAlt; Het] [7] 5 H)
    as (out & Hout & Hslot & _).
  exists out. split; [exact Hout | exact Hslot].
Defined.

Lemma pack_column_injective (gs1 gs2 : list genotype) :
  length gs1 = length gs2 ->
  pack_column gs1 = pack_column gs2 -> gs1 = gs2.
Proof.
  intros Hlen Hpack.
  apply (nth_ext gs1 gs2 HomRef HomRef Hlen). intros i Hi.
  apply code_injective.
  rewrite <- (slot_pack_column gs1 i Hi), Hpack.
  apply slot_pack_column. lia.
Qed.

(** X4. Packing loses nothing once the number of individuals is known:
    two columns of valid genotypes of the same length that pack into the
    same bytes are the same column. *)
Theorem packing_injective (gs1 gs2 : list genotype) (barr : bytearray) :
  length gs1 = length gs2 ->
  _add_col_to_bytearray_with_padding (map to_scalar gs1) barr
  = _add_col_to_bytearray_with_padding (map to_scalar gs2) barr ->
  gs1 = gs2.
Proof.
  intros Hlen Heq. rewrite !add_col_pack_column in Heq.
  injection Heq as Heq. apply app_inv_head in Heq.
  now apply pack_column_injective.
Qed.

Lemma packing_injective_witness :
  length [Het; Missing; HomAlt] = length [Het; Missing; HomAlt]
  /\ [Het; Missing; HomAlt] = [Het; Missing; HomAlt].
Proof.
  split; [reflexivity|].
  exact (packing_injective [Het; Missing; HomAlt] [Het; Missing; HomAlt]
           [7] eq_refl eq_refl).
Defined.

(** X5. Packing a column in pieces: when the first piece has a multiple
    of 4 rows, packing two pieces of valid genotypes one after the other
    into the same buffer gives what packing their concatenation gives. *)
Theorem packing_in_pieces (gs1 gs2 : list genotype) (k : nat)
    (barr : bytearray) :
  length gs1 = (4 * k)%nat ->
  exists barr1,
    _add_col_to_bytearray_with_padding (map to_scalar gs1) barr
    = Returned barr1
    /\ _add_col_to_bytearray_with_padding (map to_scalar gs2) barr1
       = _add_col_to_bytearray_with_padding (map to_scalar (gs1 ++ gs2))
           barr.
Proof.
  intros Hlen. exists (barr ++ pack_column gs1).
  split; [apply add_col_pack_column|].
  rewrite !add_col_pack_column, (pack_column_app k gs1 gs2 Hlen),
    app_assoc.
  reflexivity.
Qed.

Lemma packing_in_pieces_witness :
  length [Het; Missing; HomAlt; HomRef] = (4 * 1)%nat
  /\ exists barr1,
       _add_col_to_bytearray_with_padding
         (map to_scalar [Het; Missing; HomAlt; HomRef]) [7]
       = Returned barr1
       /\ _add_col_to_bytearray_with_padding
            (map to_scalar [Missing; Het]) barr1
          = _add_col_to_bytearray_with_padding
              (map to_scalar ([Het; Missing; HomAlt; HomRef]
                                ++ [Missing; Het])) [7].
Proof.
  split; [reflexivity|].
  exact (packing_in_pieces [Het; Missing; HomAlt; HomRef] [Missing; Het] 1
           [7] eq_refl).
Defined.

(** ** [_to_bytes] and the matrix writer *)

Lemma to_bytes_loop_genotypes (m : ndarray) (ixs : list nat) :
  wf_ndarray m ->
  Forall (fun c => (c < shape1 m)%nat) ixs ->
  forall gss barr,
    map (column m) ixs = map (map to_scalar) gss ->
    to_bytes_loop ixs m barr = Returned (barr ++ flat_map pack_column gss).
Proof.
  intros Hwf Hixs.
  induction Hixs as [|c ixs Hc _ IH]; intros gss barr Hcols.
  - destruct gss; [|discriminate]. cbn. now rewrite app_nil_r.
  - destruct gss as [|gs gss]; [discriminate|].
    cbn [map] in Hcols. injection Hcols as Hcol Hcols.
    cbn [to_bytes_loop flat_map].
    rewrite (add_mat_col_column m c barr Hwf Hc), Hcol,
      add_col_pack_column, (IH gss _ Hcols), app_assoc.
    reflexivity.
Qed.

(** X6. On a well-shaped matrix of valid genotype values [_to_bytes]
    returns [p * ceil(n/4)] bytes, and they are the file that
    [write_m_to_bed] writes without the header; with the header, and at
    least one column, the file is the three magic numbers followed by
    them. *)
Theorem to_bytes_is_the_file (m : ndarray) :
  wf_ndarray m -> valid_ndarray m ->
  exists bytes,
    _to_bytes m = Returned bytes
    /\ length bytes = (shape1 m * ceil4 (shape0 m))%nat
    /\ write_m_to_bed m false = mk_written bytes None
    /\ ((1 <= shape1 m)%nat ->
        write_m_to_bed m true = mk_written ([108; 27; 1] ++ bytes) None).
Proof.
  intros Hwf Hv.
  destruct (columns_genotypes m Hwf Hv) as (gss & Hcols & Hlen & Hrows).
  exists (flat_map pack_column gss).
  split; [|split; [|split]].
  - unfold _to_bytes.
    exact (to_bytes_loop_genotypes m _ Hwf (seq_below 0 (shape1 m)) gss []
             Hcols).
  - rewrite (length_flat_pack_column _ _ Hrows), Hlen. reflexivity.
  - rewrite (write_m_to_bed_columns m false Hwf), Hcols,
      pack_columns_loop_genotypes.
    destruct gss; reflexivity.
  - intros Hp.
    rewrite (write_m_to_bed_columns m true Hwf), Hcols,
      pack_columns_loop_genotypes.
    destruct gss; [cbn in Hlen; lia | reflexivity].
Qed.

Lemma to_bytes_is_the_file_witness :
  wf_ndarray sample_matrix /\ valid_ndarray sample_matrix
  /\ exists bytes,
       _to_bytes sample_matrix = Returned bytes
       /\ length bytes = (2 * ceil4 5)%nat
       /\ write_m_to_bed sample_matrix false = mk_written bytes None.
Proof.
  split; [exact wf_sample_matrix|].
  split; [exact valid_sample_matrix|].
  destruct (to_bytes_is_the_file sample_matrix wf_sample_matrix
              valid_sample_matrix) as (bytes & Hb & Hl & Hw & _).
  exists bytes. split; [exact Hb|]. split; [exact Hl | exact Hw].
Defined.

(** ** A column with an invalid value stops the writer *)

Lemma add_col_invalid_raises (col : list scalar) (barr : bytearray) :
  ~ valid_column col ->
  exists barr',
    _add_col_to_bytearray_with_padding col barr = Raised KeyError barr'.
Proof.
  intros Hbad.
  pose proof (loop_outcomes _ (length col) (fetch_col_total col)
                (length col) 0%nat barr (Nat.le_add_r _ _))
    as (out & _ & Hres).
  rewrite <- !col_pad_while_loop in Hres.
  change (col_pad_while (length col) col (length col) 0 barr)
    with (_add_col_to_bytearray_with_padding col barr) in Hres.
  destruct Hres as [Hret | Hraise].
  - elim Hbad. exact (add_col_returned_valid _ _ _ Hret).
  - now exists (barr ++ out).
Qed.

Lemma valid_columns_genotypes (cols : list (list scalar)) :
  Forall valid_column cols -> exists gss, cols = map (map to_scalar) gss.
Proof.
  induction 1 as [|col cols Hcol _ [gss ->]].
  - now exists [].
  - destruct (valid_column_genotypes col Hcol) as [gs ->].
    now exists (gs :: gss).
Qed.

Lemma pack_columns_loop_invalid (gss : list (list genotype))
    (bad : list scalar) (rest : list (list scalar)) :
  ~ valid_column bad ->
  forall barr out,
    pack_columns_loop (map (map to_scalar) gss ++ bad :: rest) barr out
    = mk_written
        (match gss with
         | [] => out
         | _ :: _ => out ++ barr ++ flat_map pack_column gss
         end) (Some KeyError).
Proof.
  intros Hbad. induction gss as [|gs gss IH]; intros barr out.
  - cbn [map app pack_columns_loop].
    destruct (add_col_invalid_raises bad barr Hbad) as [barr' ->].
    reflexivity.
  - cbn [map app pack_columns_loop]. rewrite add_col_pack_column, IH.
    f_equal. destruct gss as [|gs' gss].
    + cbn [flat_map]. now rewrite app_nil_r.
    + cbn [flat_map app]. now rewrite <- !app_assoc.
Qed.

(** X7. When column [k] is the first that holds a value outside the four
    states, [write_m_to_bed] raises [KeyError] and the file holds the
    header (if asked for) and the packed bytes of columns 0 to k-1 only:
    nothing of column [k], not even its leading valid groups; when
    [k = 0] the file is empty, header included. *)
Theorem write_stops_at_invalid_column (m : ndarray)
    (good : list (list scalar)) (bad : list scalar)
    (rest : list (list scalar)) (magic_numbers : bool) :
  wf_ndarray m ->
  columns m = good ++ bad :: rest ->
  Forall valid_column good ->
  ~ valid_column bad ->
  exists packed,
    Forall2
      (fun col bytes =>
         _add_col_to_bytearray_with_padding col [] = Returned bytes)
      good packed
    /\ write_m_to_bed m magic_numbers
       = mk_written
           (match good with
            | [] => []
            | _ :: _ =>
                (if magic_numbers then [108; 27; 1] else [])
                  ++ concat packed
            end) (Some KeyError).
Proof.
  intros Hwf Hcols Hgood Hbad.
  destruct (valid_columns_genotypes good Hgood) as [gss ->].
  exists (map pack_column gss). split; [apply packed_genotypes|].
  rewrite (write_m_to_bed_columns m magic_numbers Hwf), Hcols,
    (pack_columns_loop_invalid gss bad rest Hbad),
    <- flat_map_concat_map.
  destruct gss; [reflexivity|]. destruct magic_numbers; reflexivity.
Qed.

Lemma write_stops_at_invalid_column_witness :
  wf_ndarray sample_matrix_bad
  /\ write_m_to_bed sample_matrix_bad true
     = mk_written [108; 27; 1; 0xCB; 0xFD] (Some KeyError).
Proof.
  assert (wf_ndarray sample_matrix_bad) as Hwf
    by (split; [reflexivity | repeat constructor]).
  split; [exact Hwf|].
  assert (~ valid_column [Int 2; Int 0; Int 1; Int 2; Int 3]) as Hbad.
  { intros H. unfold valid_column in H. rewrite Forall_forall in H.
    specialize (H (Int 3) ltac:(cbn; tauto)). discriminate H. }
  destruct (write_stops_at_invalid_column sample_matrix_bad
              [[Int 0; Int 1; Int 2; Int 0; NaN]]
              [Int 2; Int 0; Int 1; Int 2; Int 3]
              [[Int 1; Int 1; Int 1; Int 1; Int 1]] true Hwf eq_refl
              ltac:(repeat constructor) Hbad)
    as (packed & Hpacked & Hfile).
  inversion Hpacked as [|? ? ? ? Hcol Htail]; subst.
  inversion Htail; subst.
  injection Hcol as <-. exact Hfile.
Defined.

(** ** A column index past the last column *)

Lemma getitem2_out_of_bounds (m : ndarray) (col_ix r : nat) :
  wf_ndarray m -> (shape1 m <= col_ix)%nat -> (r < shape0 m)%nat ->
  getitem2 m r col_ix = Raise IndexError.
Proof.
  intros [Hr Hall] Hc Hlt. unfold getitem2.
  destruct (nth_error (rows m) r) as [row|] eqn:Hrow; [|reflexivity].
  unfold getitem.
  assert (length row = shape1 m) as Hlen.
  { rewrite Forall_forall in Hall. eapply Hall, nth_error_In, Hrow. }
  replace (nth_error row col_ix) with (@None scalar)
    by (symmetry; apply nth_error_None; lia).
  reflexivity.
Qed.

Lemma group_at_index_error (fetch : nat -> result scalar) (row_ix : nat) :
  (forall r, fetch r = Ok (Int 0) \/ fetch r = Raise IndexError) ->
  fetch row_ix = Raise IndexError ->
  group_at fetch row_ix = Raise IndexError.
Proof.
  intros Hf H0. unfold group_at.
  change (Int 0) with (to_scalar HomRef) in Hf.
  destruct (Hf (row_ix + 3)%nat) as [-> | ->]; cbn [bind]; [|reflexivity].
  rewrite add_code_genotype; cbn [bind].
  destruct (Hf (row_ix + 2)%nat) as [-> | ->]; cbn [bind]; [|reflexivity].
  rewrite add_code_genotype; cbn [bind].
  destruct (Hf (row_ix + 1)%nat) as [-> | ->]; cbn [bind]; [|reflexivity].
  rewrite add_code_genotype; cbn [bind].
  rewrite H0. reflexivity.
Qed.

(** X8. Bounds of the column index: on a well-shaped matrix with at
    least one row, a column index past the last column makes the padded
    matrix packer raise [IndexError] at its first read of the matrix and
    leave the buffer untouched, and so does the unpadded packer when its
    assertion holds; on a matrix with no row the padded packer reads
    nothing and returns the buffer as it was. *)
Theorem column_index_out_of_bounds (m : ndarray) (col_ix : nat)
    (barr : bytearray) :
  wf_ndarray m -> (shape1 m <= col_ix)%nat ->
  ((0 < shape0 m)%nat ->
   _add_mat_col_to_bytearray_with_padding m col_ix barr
   = Raised IndexError barr)
  /\ ((0 < shape0 m)%nat -> (shape0 m mod 4 = 0)%nat ->
      _add_mat_col_to_bytearray m col_ix barr = Raised IndexError barr)
  /\ (shape0 m = 0%nat ->
      _add_mat_col_to_bytearray_with_padding m col_ix barr
      = Returned barr).
Proof.
  intros Hwf Hc. split; [|split].
  - intros Hpos. unfold _add_mat_col_to_bytearray_with_padding.
    rewrite mat_pad_while_loop.
    destruct (shape0 m) as [|n'] eqn:Hn; [lia|].
    apply loop_raise; [lia|].
    apply group_at_index_error.
    + intros r. destruct (S n' <=? r)%nat eqn:Hle; [now left|].
      right. apply Nat.leb_gt in Hle.
      apply getitem2_out_of_bounds; trivial; lia.
    + cbn [Nat.leb]. apply getitem2_out_of_bounds; trivial; lia.
  - intros Hpos Hmod. unfold _add_mat_col_to_bytearray.
    rewrite Hmod. cbn [Nat.eqb negb]. rewrite mat_while_loop.
    assert (3 < shape0 m)%nat as H3.
    { pose proof (Nat.div_mod_eq (shape0 m) 4). lia. }
    destruct (shape0 m) as [|n'] eqn:Hn; [lia|].
    apply loop_raise; [lia|].
    unfold group_at.
    rewrite (getitem2_out_of_bounds m col_ix (0 + 3) Hwf Hc) by lia.
    reflexivity.
  - intros Hn. unfold _add_mat_col_to_bytearray_with_padding.
    rewrite mat_pad_while_loop. apply loop_exit. lia.
Qed.

Lemma column_index_out_of_bounds_witness :
  wf_ndarray sample_matrix /\ (shape1 sample_matrix <= 2)%nat
  /\ _add_mat_col_to_bytearray_with_padding sample_matrix 2 [7]
     = Raised IndexError [7].
Proof.
  assert (shape1 sample_matrix <= 2)%nat as Hc by (cbn; lia).
  assert (0 < shape0 sample_matrix)%nat as Hpos by (cbn; lia).
  split; [exact wf_sample_matrix|]. split; [exact Hc|].
  exact (proj1 (column_index_out_of_bounds sample_matrix 2 [7]
                  wf_sample_matrix Hc) Hpos).
Defined.

(** ** The random source under its contract *)

Lemma wf_column_stack (n : nat) (c : list scalar) (cols : list (list scalar)) :
  Forall (fun col => length col = n) (c :: cols) ->
  exists m,
    column_stack (c :: cols) = Ok m
    /\ wf_ndarray m
    /\ shape0 m = n
    /\ shape1 m = S (length cols)
    /\ forall P : scalar -> Prop,
         Forall (Forall P) (c :: cols) -> Forall (Forall P) (rows m).
Proof.
  intros Hlen. eexists. split; [reflexivity|].
  assert (length c = n) as Hc by (inversion Hlen; assumption).
  cbn [shape0 shape1 rows length]. rewrite Hc.
  split; [|split; [reflexivity|split; [reflexivity|]]].
  - split; cbn [shape0 shape1 rows].
    + now rewrite length_map, length_seq.
    + apply Forall_map, Forall_forall. intros i _.
      now rewrite length_map.
  - intros P HP. apply Forall_map, Forall_forall. intros i Hi.
    apply in_seq in Hi. apply Forall_map.
    rewrite Forall_forall in HP, Hlen |- *. intros col Hin.
    specialize (HP col Hin). specialize (Hlen col Hin).
    rewrite Forall_forall in HP. apply HP, nth_In. lia.
Qed.

Section RandomContract.

Variables Rng Maf : Type.
Variable uniform : Rng -> Maf * Rng.
Variable uniform_many : nat -> Rng -> list Maf * Rng.
Variable binomial2 : Maf -> nat -> Rng -> list Z * Rng.

(** [size] draws are returned for a size that is not negative. *)
Hypothesis uniform_many_length :
  forall k rng, length (fst (uniform_many k rng)) = k.
Hypothesis binomial2_length :
  forall f k rng, length (fst (binomial2 f k rng)) = k.
(** A binomial draw with 2 trials is 0, 1 or 2. *)
Hypothesis binomial2_range :
  forall f k rng, Forall (fun z => 0 <= z <= 2) (fst (binomial2 f k rng)).

Lemma astype_byte_drawn (draws : list Z) :
  Forall (fun z => 0 <= z <= 2) draws ->
  valid_column (map astype_byte draws) /\ no_missing (map astype_byte draws).
Proof.
  intros Hr. split; apply Forall_map; (eapply Forall_impl; [|exact Hr]);
    intros z Hz; cbn beta in Hz;
    assert (z = 0 \/ z = 1 \/ z = 2) as [-> | [-> | ->]] by lia;
    reflexivity.
Qed.

Lemma rand_gt_col_drawn (n : Z) (rng : Rng) :
  0 <= n ->
  exists col rng',
    _rand_gt_col uniform binomial2 n rng = Ok (col, rng')
    /\ drawn_column n col.
Proof.
  intros Hn. unfold _rand_gt_col.
  destruct (uniform rng) as [maf rng1].
  replace (n <? 0) with false by (symmetry; apply Z.ltb_ge; lia).
  pose proof (binomial2_range maf (Z.to_nat n) rng1) as Hr.
  pose proof (binomial2_length maf (Z.to_nat n) rng1) as Hl.
  destruct (binomial2 maf (Z.to_nat n) rng1) as [draws rng2].
  cbn [fst] in Hr, Hl. eexists. eexists. split; [reflexivity|].
  unfold drawn_column. rewrite length_map.
  split; [exact Hl | now apply astype_byte_drawn].
Qed.

Lemma streamed_drawn (n : Z) (k : nat) (rng : Rng) :
  0 <= n ->
  exists cols,
    streamed_columns uniform binomial2 k n rng = Ok cols
    /\ length cols = k
    /\ Forall (drawn_column n) cols.
Proof.
  intros Hn. revert rng. induction k as [|k IH]; intros rng.
  - exists []. repeat split. constructor.
  - cbn [streamed_columns].
    destruct (rand_gt_col_drawn n rng Hn) as (col & rng' & -> & Hcol).
    cbn [bind]. destruct (IH rng') as (cols & -> & Hlen & Hall).
    cbn [bind]. exists (col :: cols). cbn [length]. rewrite Hlen.
    repeat split. now constructor.
Qed.

Lemma binomial_columns_drawn (n : Z) (maf : list Maf) (rng : Rng) :
  0 <= n ->
  exists cols rng',
    binomial_columns binomial2 maf n rng = Ok (cols, rng')
    /\ length cols = length maf
    /\ Forall (drawn_column n) cols.
Proof.
  intros Hn. revert rng. induction maf as [|f maf IH]; intros rng.
  - exists [], rng. repeat split. constructor.
  - cbn [binomial_columns].
    replace (n <? 0) with false by (symmetry; apply Z.ltb_ge; lia).
    pose proof (binomial2_range f (Z.to_nat n) rng) as Hr.
    pose proof (binomial2_length f (Z.to_nat n) rng) as Hl.
    destruct (binomial2 f (Z.to_nat n) rng) as [draws rng1].
    cbn [fst] in Hr, Hl.
    destruct (IH rng1) as (cols & rng' & -> & Hlen & Hall). cbn [bind].
    eexists. eexists. split; [reflexivity|]. cbn [length]. rewrite Hlen.
    split; [reflexivity|]. constructor; [|exact Hall].
    unfold drawn_column. rewrite length_map.
    split; [exact Hl | now apply astype_byte_drawn].
Qed.

Lemma rand_gt_mat_drawn (n p : Z) (rng : Rng) :
  0 <= n -> 1 <= p ->
  exists m,
    rand_gt_mat uniform_many binomial2 n p rng = Ok m
    /\ wf_ndarray m
    /\ shape0 m = Z.to_nat n
    /\ shape1 m = Z.to_nat p
    /\ valid_ndarray m
    /\ Forall no_missing (rows m).
Proof.
  intros Hn Hp. unfold rand_gt_mat.
  replace (p <? 0) with false by (symmetry; apply Z.ltb_ge; lia).
  pose proof (uniform_many_length (Z.to_nat p) rng) as Hmaf.
  destruct (uniform_many (Z.to_nat p) rng) as [maf rng1]. cbn [fst] in Hmaf.
  destruct (binomial_columns_drawn n maf rng1 Hn)
    as (cols & rng' & -> & Hlen & Hall).
  cbn [bind fst].
  destruct cols as [|c cols]; [cbn in Hlen; lia|].
  assert (Forall (fun col => length col = Z.to_nat n) (c :: cols)) as Hn'
    by (eapply Forall_impl; [|exact Hall]; intros col Hc; apply Hc).
  destruct (wf_column_stack _ c cols Hn')
    as (m & -> & Hwf & H0 & H1 & HP).
  exists m. split; [reflexivity|]. split; [exact Hwf|].
  split; [exact H0|]. split; [cbn [length] in Hlen; lia|].
  split; apply HP; (eapply Forall_impl; [|exact Hall]);
    intros col Hc; apply Hc.
Qed.

End RandomContract.

Lemma drawn_columns_genotypes (n : Z) (cols : list (list scalar)) :
  Forall (drawn_column n) cols ->
  exists gss,
    cols = map (map to_scalar) gss
    /\ Forall (fun gs => length gs = Z.to_nat n) gss.
Proof.
  induction 1 as [|col cols (Hlen & Hv & _) _ (gss & -> & Hall)].
  - exists []. split; constructor.
  - destruct (valid_column_genotypes col Hv) as [gs ->].
    exists (gs :: gss). split; [reflexivity|].
    constructor; [|exact Hall]. now rewrite length_map in Hlen.
Qed.

Lemma write_m_to_bed_size_headerless (m : ndarray) :
  wf_ndarray m -> valid_ndarray m ->
  raised (write_m_to_bed m false) = None
  /\ length (contents (write_m_to_bed m false))
     = (shape1 m * ceil4 (shape0 m))%nat.
Proof.
  intros Hwf Hv.
  destruct (columns_genotypes m Hwf Hv) as (gss & Hcols & Hlen & Hrows).
  rewrite (write_m_to_bed_columns m false Hwf), Hcols,
    pack_columns_loop_genotypes.
  split; [reflexivity|]. cbn [contents].
  rewrite <- Hlen, <- (length_flat_pack_column _ _ Hrows).
  destruct gss; reflexivity.
Qed.

Lemma sample_uniform_many_length (k rng : nat) :
  length (fst (sample_uniform_many k rng)) = k.
Proof. unfold sample_uniform_many. cbn [fst]. apply length_seq. Qed.

Lemma sample_binomial2_length (f k rng : nat) :
  length (fst (sample_binomial2 f k rng)) = k.
Proof.
  unfold sample_binomial2. cbn [fst]. now rewrite length_map, length_seq.
Qed.

(** X9. Under numpy's contract for the draws (as many as asked for, each
    0, 1 or 2), [rand_gt_mat] with [n >= 0] and [p >= 1] returns a matrix
    of shape (n, p) whose rows all have [p] entries, every entry one of
    0, 1, 2 and none Missing. *)
Theorem rand_gt_mat_shape (Rng Maf : Type)
    (uniform_many : nat -> Rng -> list Maf * Rng)
    (binomial2 : Maf -> nat -> Rng -> list Z * Rng)
    (n p : Z) (rng : Rng) :
  (forall k r, length (fst (uniform_many k r)) = k) ->
  (forall f k r, length (fst (binomial2 f k r)) = k) ->
  (forall f k r, Forall (fun z => 0 <= z <= 2) (fst (binomial2 f k r))) ->
  0 <= n -> 1 <= p ->
  exists m,
    rand_gt_mat uniform_many binomial2 n p rng = Ok m
    /\ wf_ndarray m
    /\ shape0 m = Z.to_nat n
    /\ shape1 m = Z.to_nat p
    /\ valid_ndarray m
    /\ Forall no_missing (rows m).
Proof.
  intros Hu Hl Hr Hn Hp. now apply rand_gt_mat_drawn.
Qed.

Lemma rand_gt_mat_shape_witness :
  (0 <= 5 /\ 1 <= 2)
  /\ exists m,
       rand_gt_mat sample_uniform_many sample_binomial2 5 2 0%nat = Ok m
       /\ wf_ndarray m
       /\ shape0 m = Z.to_nat 5
       /\ shape1 m = Z.to_nat 2
       /\ valid_ndarray m
       /\ Forall no_missing (rows m).
Proof.
  assert (0 <= 5) as Hn by lia.
  assert (1 <= 2) as Hp by lia.
  split; [split; assumption|].
  exact (rand_gt_mat_shape nat nat sample_uniform_many sample_binomial2
           5 2 0%nat sample_uniform_many_length sample_binomial2_length
           sample_binomial2_range Hn Hp).
Defined.

(** X10. [rand_gt_mat] cannot make a matrix without columns: with
    [p = 0], whatever [n] is, the list handed to [np.column_stack] is
    empty and the call raises [ValueError]. *)
Theorem rand_gt_mat_no_column (Rng Maf : Type)
    (uniform_many : nat -> Rng -> list Maf * Rng)
    (binomial2 : Maf -> nat -> Rng -> list Z * Rng)
    (n : Z) (rng : Rng) :
  (forall k r, length (fst (uniform_many k r)) = k) ->
  rand_gt_mat uniform_many binomial2 n 0 rng = Raise ValueError.
Proof.
  intros Hu. unfold rand_gt_mat. cbn [Z.ltb Z.compare Z.to_nat].
  pose proof (Hu 0%nat rng) as Hmaf.
  destruct (uniform_many 0%nat rng) as [maf rng1]. cbn [fst] in Hmaf.
  destruct maf; [reflexivity | discriminate Hmaf].
Qed.

Lemma rand_gt_mat_no_column_witness :
  rand_gt_mat sample_uniform_many sample_binomial2 7 0 0%nat
  = Raise ValueError.
Proof.
  exact (rand_gt_mat_no_column nat nat sample_uniform_many sample_binomial2
           7 0%nat sample_uniform_many_length).
Defined.

(** X11. Generating then writing: under the same contract, the matrix
    that [rand_gt_mat] returns for [n >= 0] and [p >= 1] is written by
    [write_m_to_bed] without an error, into [3 + p * ceil(n/4)] bytes
    with the header and [p * ceil(n/4)] bytes without. *)
Theorem generated_matrix_is_written (Rng Maf : Type)
    (uniform_many : nat -> Rng -> list Maf * Rng)
    (binomial2 : Maf -> nat -> Rng -> list Z * Rng)
    (n p : Z) (rng : Rng) :
  (forall k r, length (fst (uniform_many k r)) = k) ->
  (forall f k r, length (fst (binomial2 f k r)) = k) ->
  (forall f k r, Forall (fun z => 0 <= z <= 2) (fst (binomial2 f k r))) ->
  0 <= n -> 1 <= p ->
  exists m,
    rand_gt_mat uniform_many binomial2 n p rng = Ok m
    /\ raised (write_m_to_bed m true) = None
    /\ length (contents (write_m_to_bed m true))
       = (3 + Z.to_nat p * ceil4 (Z.to_nat n))%nat
    /\ raised (write_m_to_bed m false) = None
    /\ length (contents (write_m_to_bed m false))
       = (Z.to_nat p * ceil4 (Z.to_nat n))%nat.
Proof.
  intros Hu Hl Hr Hn Hp.
  destruct (rand_gt_mat_drawn Rng Maf uniform_many binomial2 Hu Hl Hr
              n p rng Hn Hp) as (m & Hm & Hwf & H0 & H1 & Hv & _).
  exists m. split; [exact Hm|].
  destruct (write_m_to_bed_size m Hwf Hv) as [He Hs]; [lia|].
  destruct (write_m_to_bed_size_headerless m Hwf Hv) as [He' Hs'].
  rewrite <- H0, <- H1. now repeat split.
Qed.

Lemma generated_matrix_is_written_witness :
  (0 <= 5 /\ 1 <= 2)
  /\ exists m,
       rand_gt_mat sample_uniform_many sample_binomial2 5 2 0%nat = Ok m
       /\ raised (write_m_to_bed m true) = None
       /\ length (contents (write_m_to_bed m true))
          = (3 + Z.to_nat 2 * ceil4 (Z.to_nat 5))%nat
       /\ raised (write_m_to_bed m false) = None
       /\ length (contents (write_m_to_bed m false))
          = (Z.to_nat 2 * ceil4 (Z.to_nat 5))%nat.
Proof.
  assert (0 <= 5) as Hn by lia.
  assert (1 <= 2) as Hp by lia.
  split; [split; assumption|].
  exact (generated_matrix_is_written nat nat sample_uniform_many
           sample_binomial2 5 2 0%nat sample_uniform_many_length
           sample_binomial2_length sample_binomial2_range Hn Hp).
Defined.

(** X12. The streaming writer under the same contract: for [n >= 0]
    [rand_bed_file] raises nothing; with the header and [p >= 1] it
    writes [3 + p * ceil(n/4)] bytes, without the header
    [p * ceil(n/4)] bytes for any [p] (none when [p <= 0]). *)
Theorem rand_bed_file_size (Rng Maf : Type) (uniform : Rng -> Maf * Rng)
    (binomial2 : Maf -> nat -> Rng -> list Z * Rng)
    (n p : Z) (rng : Rng) :
  (forall f k r, length (fst (binomial2 f k r)) = k) ->
  (forall f k r, Forall (fun z => 0 <= z <= 2) (fst (binomial2 f k r))) ->
  0 <= n ->
  (1 <= p ->
   raised (rand_bed_file uniform binomial2 n p true rng) = None
   /\ length (contents (rand_bed_file uniform binomial2 n p true rng))
      = (3 + Z.to_nat p * ceil4 (Z.to_nat n))%nat)
  /\ raised (rand_bed_file uniform binomial2 n p false rng) = None
  /\ length (contents (rand_bed_file uniform binomial2 n p false rng))
     = (Z.to_nat p * ceil4 (Z.to_nat n))%nat.
Proof.
  intros Hl Hr Hn.
  destruct (streamed_drawn Rng Maf uniform binomial2 Hl Hr n (Z.to_nat p)
              rng Hn) as (cols & Hs & Hlen & Hall).
  destruct (drawn_columns_genotypes n cols Hall) as (gss & -> & Hrows).
  rewrite length_map in Hlen.
  rewrite !(rand_bed_file_columns _ _ uniform binomial2 n p _ rng _ Hs),
    !pack_columns_loop_genotypes.
  cbn [raised contents].
  rewrite <- Hlen, <- (length_flat_pack_column _ _ Hrows).
  split; [|split; [reflexivity | destruct gss; reflexivity]].
  intros Hp. split; [reflexivity|].
  destruct gss; [cbn in Hlen; lia | reflexivity].
Qed.

Lemma rand_bed_file_size_witness :
  (0 <= 5 /\ 1 <= 3)
  /\ length (contents
               (rand_bed_file sample_uniform sample_binomial2 5 3 true 0%nat))
     = (3 + Z.to_nat 3 * ceil4 (Z.to_nat 5))%nat.
Proof.
  assert (0 <= 5) as Hn by lia.
  assert (1 <= 3) as Hp by lia.
  split; [split; assumption|].
  exact (proj2 (proj1 (rand_bed_file_size nat nat sample_uniform
                         sample_binomial2 5 3 0%nat sample_binomial2_length
                         sample_binomial2_range Hn) Hp)).
Defined.

(** ** The matrix packer on a column of the matrix *)

Lemma add_col_cases (col : list scalar) (barr : bytearray) :
  exists out,
    Forall byte_range out
    /\ ((_add_col_to_bytearray_with_padding col barr = Returned (barr ++ out)
         /\ valid_column col)
        \/ (_add_col_to_bytearray_with_padding col barr
            = Raised KeyError (barr ++ out)
            /\ ~ valid_column col)).
Proof.
  pose proof (loop_outcomes _ (length col) (fetch_col_total col)
                (length col) 0%nat barr (Nat.le_add_r _ _))
    as (out & Hout & Hres).
  rewrite <- !col_pad_while_loop in Hres.
  change (col_pad_while (length col) col (length col) 0 barr)
    with (_add_col_to_bytearray_with_padding col barr) in Hres.
  exists out. split; [exact Hout|].
  destruct Hres as [Hret | Hraise].
  - left. split; [exact Hret|]. exact (add_col_returned_valid _ _ _ Hret).
  - right. split; [exact Hraise|]. intros Hv.
    destruct (valid_column_genotypes col Hv) as [gs ->].
    rewrite add_col_pack_column in Hraise. discriminate.
Qed.

(** X13. On a well-shaped matrix and a column index below [p], the
    padded matrix packer never raises [IndexError]: it returns when
    every value of that column is one of the four states and raises
    [KeyError] when one is not, the buffer being what it was followed by
    values in [0, 256). *)
Theorem add_mat_col_outcomes (m : ndarray) (col_ix : nat)
    (barr : bytearray) :
  wf_ndarray m -> (col_ix < shape1 m)%nat ->
  exists out,
    Forall byte_range out
    /\ ((_add_mat_col_to_bytearray_with_padding m col_ix barr
         = Returned (barr ++ out)
         /\ valid_column (column m col_ix))
        \/ (_add_mat_col_to_bytearray_with_padding m col_ix barr
            = Raised KeyError (barr ++ out)
            /\ ~ valid_column (column m col_ix))).
Proof.
  intros Hwf Hc. rewrite (add_mat_col_column m col_ix barr Hwf Hc).
  apply add_col_cases.
Qed.

Lemma add_mat_col_outcomes_witness :
  wf_ndarray sample_matrix_bad /\ (1 < shape1 sample_matrix_bad)%nat
  /\ exists out,
       Forall byte_range out
       /\ ((_add_mat_col_to_bytearray_with_padding sample_matrix_bad 1 [7]
            = Returned ([7] ++ out)
            /\ valid_column (column sample_matrix_bad 1))
           \/ (_add_mat_col_to_bytearray_with_padding sample_matrix_bad 1 [7]
               = Raised KeyError ([7] ++ out)
               /\ ~ valid_column (column sample_matrix_bad 1))).
Proof.
  assert (wf_ndarray sample_matrix_bad) as Hwf
    by (split; [reflexivity | repeat constructor]).
  assert (1 < shape1 sample_matrix_bad)%nat as Hc by (cbn; lia).
  split; [exact Hwf|]. split; [exact Hc|].
  exact (add_mat_col_outcomes sample_matrix_bad 1 [7] Hwf Hc).
Defined.

(** ** Padding cannot be told from HomRef *)

Lemma pack_column_padding (gs : list genotype) (k : nat) :
  (length gs mod 4 <> 0)%nat ->
  (length gs mod 4 + k <= 4)%nat ->
  pack_column (gs ++ repeat HomRef k) = pack_column gs.
Proof.
  revert k.
  induction gs as [| t0 | t0 t1 | t0 t1 t2 | t0 t1 t2 t3 gs IH]
    using list_ind4; intros k Hmod Hk.
  - cbn in Hmod. congruence.
  - cbn in Hk. destruct k as [|[|[|[|k]]]]; try lia; reflexivity.
  - cbn in Hk. destruct k as [|[|[|k]]]; try lia; reflexivity.
  - cbn in Hk. destruct k as [|[|k]]; try lia; reflexivity.
  - assert (length (t0 :: t1 :: t2 :: t3 :: gs) mod 4 = length gs mod 4)%nat
      as E.
    { cbn [length].
      replace (S (S (S (S (length gs))))) with (length gs + 1 * 4)%nat
        by lia.
      apply Nat.Div0.mod_add. }
    rewrite E in Hmod, Hk.
    cbn [app pack_column]. now rewrite IH.
Qed.

(** X14. The bytes alone do not tell the number of individuals: when the
    column length is not a multiple of 4, adding HomRef individuals up
    to the end of the last group leaves the packed bytes unchanged. *)
Theorem padding_is_homref (gs : list genotype) (k : nat)
    (barr : bytearray) :
  (length gs mod 4 <> 0)%nat ->
  (length gs mod 4 + k <= 4)%nat ->
  _add_col_to_bytearray_with_padding
    (map to_scalar (gs ++ repeat HomRef k)) barr
  = _add_col_to_bytearray_with_padding (map to_scalar gs) barr.
Proof.
  intros Hmod Hk. rewrite !add_col_pack_column.
  now rewrite pack_column_padding.
Qed.

Lemma padding_is_homref_witness :
  (length [Het; Missing; HomAlt; HomRef; Missing] mod 4 <> 0)%nat
  /\ (length [Het; Missing; HomAlt; HomRef; Missing] mod 4 + 2 <= 4)%nat
  /\ _add_col_to_bytearray_with_padding
       (map to_scalar
          ([Het; Missing; HomAlt; HomRef; Missing] ++ repeat HomRef 2)) [7]
     = _add_col_to_bytearray_with_padding
         (map to_scalar [Het; Missing; HomAlt; HomRef; Missing]) [7].
Proof.
  assert (length [Het; Missing; HomAlt; HomRef; Missing] mod 4 <> 0)%nat
    as Hmod by (cbn; lia).
  assert (length [Het; Missing; HomAlt; HomRef; Missing] mod 4 + 2 <= 4)%nat
    as Hk by (cbn; lia).
  split; [exact Hmod|]. split; [exact Hk|].
  exact (padding_is_homref [Het; Missing; HomAlt; HomRef; Missing] 2 [7]
           Hmod Hk).
Defined.
